(** * NDLA three-sixty: orientation, zoom and placement core

    A shallow embedding of the controller and coordinator code of
    h5p-ndla-three-sixty:

    - [PositionControls] (position-controls.js): the drag/touch/keyboard
      controller with its [alpha]/[beta] accumulators;
    - [ZoomControls] (zoom-controls.js): field-of-view dollying;
    - [ThreeSixty] (the NDLAThreeSixty coordinator and its element
      handling): camera rotation, placed elements, event relay.

    JavaScript numbers are modelled as real numbers: every quantity the
    code handles is a finite number, [Math.PI] is [PI], [%] is the
    truncated remainder [JsNum.rem].  Division by zero, which JavaScript
    answers with a non-finite number, is outside this model; the main
    statements about a quotient carry the divisor's non-zero
    hypothesis. *)

From Stdlib Require Import Reals Lra Lia ZArith List String Bool Arith.
From Stdlib Require Import Machin.
Import ListNotations.

Local Open Scope R_scope.

(** ** Numbers *)

Module JsNum.

(** [Math.trunc]: rounding towards zero. *)
Definition trunc (x : R) : Z :=
  if Rle_dec 0 x then Int_part x else (- Int_part (- x))%Z.

(** The [%] operator on numbers: the result has the sign of the
    dividend, [a - b * trunc (a / b)]. *)
Definition rem (a b : R) : R := a - b * IZR (trunc (a / b)).

(** [Math.max] and [Math.min] are [Rmax] and [Rmin]. *)

(** Clamping to a closed interval, the reading of "clamp(v, lo, hi)". *)
Definition clamp (v lo hi : R) : R := Rmax lo (Rmin hi v).

End JsNum.

(** ** Values used as flags

    The flags of the code hold [undefined] (a field no constructor
    assigns), a boolean, or a control name; conditions test them for
    truthiness. *)

Module Js.

Inductive JsVal : Type :=
| JUndefined
| JBool (b : bool)
| JStr (s : string).

(** ToBoolean: [undefined], [false] and the empty string are falsy. *)
Definition truthy (v : JsVal) : bool :=
  match v with
  | JUndefined => false
  | JBool b => b
  | JStr EmptyString => false
  | JStr (String _ _) => true
  end.

(** DOM elements and three.js objects are compared by identity. *)
Definition Handle := nat.

(** [Array.prototype.indexOf] with a caller-supplied identity test:
    the first index holding the value, [-1] when there is none. *)
Fixpoint indexOf {A : Type} (same : A -> bool) (l : list A) : Z :=
  match l with
  | [] => (-1)%Z
  | a :: l' =>
      if same a then 0%Z
      else let i := indexOf same l' in
           if (i <? 0)%Z then (-1)%Z else (i + 1)%Z
  end.

(** [Array.prototype.splice(start, deleteCount)] without inserted items:
    a negative [start] counts from the end, both arguments are clamped
    to the array. The array left behind is returned. *)
Definition splice {A : Type} (start deleteCount : Z) (l : list A) : list A :=
  let len := Z.of_nat (List.length l) in
  let actualStart :=
    if (start <? 0)%Z then Z.max (len + start) 0 else Z.min start len in
  let actualDeleteCount := Z.min (Z.max deleteCount 0) (len - actualStart) in
  firstn (Z.to_nat actualStart) l
    ++ skipn (Z.to_nat (actualStart + actualDeleteCount)) l.

End Js.

(** ** position-controls.js *)

Module PositionControls.
Import Js.

Record Point : Type := mkPoint { x : R; y : R }.

(** The payload of the cancelable [movestart] event. *)
Record MovestartData : Type := mkMovestartData {
  element_of : Handle;
  isCamera_of : bool;
  target_of : option Handle
}.

(** The [move] event with the fields [move] attaches to it. *)
Record MoveEvent : Type := mkMoveEvent {
  alphaDelta : R;
  betaDelta : R;
  ev_alpha : R;
  ev_beta : R
}.

(** The fields of a PositionControls instance.  [controlActive] is not
    assigned by the constructor.  [startX] and [startY] are attached to
    the instance by its owner's [movestart] listener; move listeners,
    the only readers, run after it, and the model holds 0 until then. *)
Record t : Type := mk {
  element : Handle;
  friction : R;
  invert : R;
  isCamera : bool;
  isPanorama : bool;
  alpha : R;
  beta : R;
  startPosition : option Point;
  prevPosition : option Point;
  keyStillDown : option Z;
  controlActive : JsVal;
  startX : R;
  startY : R
}.

Definition set_session (sp : option Point) (a b : R) (c : JsVal) (pc : t) : t :=
  mk (element pc) (friction pc) (invert pc) (isCamera pc) (isPanorama pc)
     a b sp (prevPosition pc) (keyStillDown pc) c (startX pc) (startY pc).

Definition set_alpha_beta (a b : R) (pc : t) : t :=
  set_session (startPosition pc) a b (controlActive pc) pc.

Definition set_controlActive (c : JsVal) (pc : t) : t :=
  set_session (startPosition pc) (alpha pc) (beta pc) c pc.

Definition set_isPanorama (p : bool) (pc : t) : t :=
  mk (element pc) (friction pc) (invert pc) (isCamera pc) p
     (alpha pc) (beta pc) (startPosition pc) (prevPosition pc)
     (keyStillDown pc) (controlActive pc) (startX pc) (startY pc).

Definition set_start_rotation (sx sy : R) (pc : t) : t :=
  mk (element pc) (friction pc) (invert pc) (isCamera pc) (isPanorama pc)
     (alpha pc) (beta pc) (startPosition pc) (prevPosition pc)
     (keyStillDown pc) (controlActive pc) sx sy.

(** [constructor(element, friction = 800, shouldInvert, isCamera = false,
    isPanorama = false)]; an omitted argument is [None]. *)
Definition new_ (el : Handle) (fr : option R) (shouldInvert : bool)
    (cam pano : option bool) : t :=
  mk el
     (match fr with Some f => f | None => 800 end)
     (if shouldInvert then 1 else -1)
     (match cam with Some b => b | None => false end)
     (match pano with Some b => b | None => false end)
     0 0 None None None JUndefined 0 0.

Section Session.

(** The instance lives in a world [W] that listeners may change: [this]
    reads it, [assign] writes its fields back.  [trigger_movestart] runs
    the registered [movestart] listeners and reports
    [defaultPrevented]. *)
Context {W : Type}.
Variable this : W -> t.
Variable assign : t -> W -> W.
Variable trigger_movestart : MovestartData -> W -> W * bool.

(** [start(x, y, control, event)]; [event] carries the target of the
    original DOM event when there is one. *)
Definition start (x0 y0 : R) (control : string) (event : option Handle)
    (w : W) : bool * W :=
  if truthy (controlActive (this w)) then (false, w)
  else
    let eventData :=
      mkMovestartData (element (this w)) (isCamera (this w)) event in
    let '(w1, defaultPrevented) := trigger_movestart eventData w in
    if defaultPrevented then (false, w1)
    else
      (true,
       assign (set_session (Some (mkPoint x0 y0)) 0 0 (JStr control) (this w1))
              w1).

End Session.

(** [end()]: the [movestop] event, which carries nothing, is triggered
    last; its listeners are composed by the owner. *)
Definition end_ (pc : t) : t := set_controlActive (JBool false) pc.

(** [move(deltaX, deltaY, friction)].  The result is the instance as it
    stands when [this.trigger(moveEvent)], the last statement, runs,
    together with that event. *)
Definition move (deltaX deltaY friction0 : R) (pc : t) : t * MoveEvent :=
  let deltaY := if isPanorama pc then 0 else deltaY in
  let aDelta := deltaX / friction0 in
  let bDelta := deltaY / friction0 in
  let alpha1 := JsNum.rem (alpha pc + aDelta) (PI * 2) in
  let beta1 := JsNum.rem (beta pc + bDelta) (PI * 2) in
  let ninety := PI / 2 in
  let beta2 :=
    if Rgt_dec beta1 ninety then ninety
    else if Rlt_dec beta1 (- ninety) then - ninety
    else beta1 in
  (set_alpha_beta alpha1 beta2 pc, mkMoveEvent aDelta bDelta alpha1 beta2).

Definition getAlpha (pc : t) : R := alpha pc.

Definition getBeta (pc : t) : R := beta pc.

(** [isMoving(control)]: with a control name, whether that control is
    the active one; without, whether any is. *)
Definition isMoving (control : option string) (pc : t) : bool :=
  match control with
  | Some (String a s) =>
      match controlActive pc with
      | JStr c => String.eqb c (String a s)
      | _ => false
      end
  | _ => truthy (controlActive pc)
  end.

(** [setPanorama(state)] ignores anything but a boolean. *)
Definition setPanorama (state : JsVal) (pc : t) : t :=
  match state with
  | JBool b => set_isPanorama b pc
  | _ => pc
  end.

(** The instance on its own: listeners may attach a start rotation and
    veto, nothing else. *)
Definition own_listener (sx sy : R) (veto : bool)
    (_ : MovestartData) (pc : t) : t * bool :=
  (set_start_rotation sx sy pc, veto).

Definition start_alone (sx sy : R) (veto : bool) (x0 y0 : R)
    (control : string) (event : option Handle) (pc : t) : bool * t :=
  start (fun pc => pc) (fun pc' _ => pc') (own_listener sx sy veto)
        x0 y0 control event pc.


End PositionControls.

(** ** services/constants.js *)

Module Constants.

Definition MAX_PITCH : R := PI / 2.

Definition FOV_PANORAMA : R := 53.

Definition FOV_SPHERE : R := 75.

Definition DEFAULT_FRICTION : R := 400.

Definition DEFAULT_ROTATION_ORDER : string := "YXZ".

Definition DEFAULT_RATIO : R := 16 / 9.

(** zoom-controls.js imports [ZOOM_MIN] and [ZOOM_MAX] from the constants,
    which do not list them; the values are the ones the copy of
    ZoomControls bundled with the coordinator declares. *)
Definition ZOOM_MIN : R := 1.

Definition ZOOM_MAX : R := 100.

End Constants.

(** ** The render backend's objects, at their interface

    Only the fields the core reads and writes: Euler rotations, vectors,
    and a camera that is perspective or orthographic by its flags. *)

Module Three.

Record Euler : Type := mkEuler {
  rot_x : R;
  rot_y : R;
  rot_z : R;
  order : string
}.

Record Vector3 : Type := mkVector3 { vx : R; vy : R; vz : R }.

Record Camera : Type := mkCamera {
  isPerspectiveCamera : bool;
  isOrthographicCamera : bool;
  fov : R;
  zoom : R;
  aspect : R;
  rotation : Euler
}.

Definition PerspectiveCamera (fov0 aspect0 : R) : Camera :=
  mkCamera true false fov0 1 aspect0 (mkEuler 0 0 0 "XYZ").

Definition set_fov (f : R) (c : Camera) : Camera :=
  mkCamera (isPerspectiveCamera c) (isOrthographicCamera c) f (zoom c)
           (aspect c) (rotation c).

Definition set_zoom (z : R) (c : Camera) : Camera :=
  mkCamera (isPerspectiveCamera c) (isOrthographicCamera c) (fov c) z
           (aspect c) (rotation c).

Definition set_rotation (r : Euler) (c : Camera) : Camera :=
  mkCamera (isPerspectiveCamera c) (isOrthographicCamera c) (fov c) (zoom c)
           (aspect c) r.

End Three.

(** ** zoom-controls.js *)

Module ZoomControls.
Import Constants.

Record t : Type := mk {
  object : Three.Camera;
  enabled : bool;
  minFov : R;
  maxFov : R;
  minZoom : R;
  maxZoom : R;
  enableZoom : bool;
  zoomSpeed : R
}.

Definition set_object (c : Three.Camera) (zc : t) : t :=
  mk c (enabled zc) (minFov zc) (maxFov zc) (minZoom zc) (maxZoom zc)
     (enableZoom zc) (zoomSpeed zc).

(** [constructor(object, element, isPanorama)]. *)
Definition new_ (object0 : Three.Camera) (isPanorama : bool) : t :=
  mk object0 true 20 (if isPanorama then FOV_PANORAMA else FOV_SPHERE)
     ZOOM_MIN ZOOM_MAX true 1.

(** [Math.pow(0.95, this.zoomSpeed)]. *)
Definition getZoomScale (zc : t) : R := Rpower (95 / 100) (zoomSpeed zc).

Definition isDollyInDisabled (zc : t) : bool :=
  Three.isPerspectiveCamera (object zc)
  && if Rle_dec (Three.fov (object zc)) (minFov zc) then true else false.

Definition isDollyOutDisabled (zc : t) : bool :=
  Three.isPerspectiveCamera (object zc)
  && if Rge_dec (Three.fov (object zc)) (maxFov zc) then true else false.

(** [dollyIn(dollyScale)]; an omitted scale is [None]. *)
Definition dollyIn (dollyScale : option R) (zc : t) : t :=
  let dollyScale :=
    match dollyScale with Some s => s | None => getZoomScale zc end in
  if Three.isPerspectiveCamera (object zc) then
    set_object
      (Three.set_fov
         (Rmax (minFov zc) (Rmin (maxFov zc) (Three.fov (object zc) * dollyScale)))
         (object zc)) zc
  else if Three.isOrthographicCamera (object zc) then
    set_object
      (Three.set_zoom
         (Rmax (minZoom zc) (Rmin (maxZoom zc) (Three.zoom (object zc) * dollyScale)))
         (object zc)) zc
  else zc.

(** [dollyOut(dollyScale)]. *)
Definition dollyOut (dollyScale : option R) (zc : t) : t :=
  let dollyScale :=
    match dollyScale with Some s => s | None => getZoomScale zc end in
  if Three.isPerspectiveCamera (object zc) then
    set_object
      (Three.set_fov
         (Rmax (minFov zc) (Rmin (maxFov zc) (Three.fov (object zc) / dollyScale)))
         (object zc)) zc
  else if Three.isOrthographicCamera (object zc) then
    set_object
      (Three.set_zoom
         (Rmax (minZoom zc) (Rmin (maxZoom zc) (Three.zoom (object zc) / dollyScale)))
         (object zc)) zc
  else zc.

(** [handleMouseWheel(event)], by the event's [deltaY]. *)
Definition handleMouseWheel (deltaY : R) (zc : t) : t :=
  if Rlt_dec deltaY 0 then dollyIn (Some (getZoomScale zc)) zc
  else if Rgt_dec deltaY 0 then dollyOut (Some (getZoomScale zc)) zc
  else zc.

(** [handleKeyDown(event)], by the event's [key]. *)
Definition handleKeyDown (key : string) (zc : t) : t :=
  if String.eqb key "-" then dollyOut None zc
  else if String.eqb key "+" then dollyIn None zc
  else zc.

Definition onMouseWheel (deltaY : R) (zc : t) : t :=
  if negb (enableZoom zc) then zc else handleMouseWheel deltaY zc.

Definition onKeyDown (key : string) (zc : t) : t :=
  if negb (enableZoom zc) then zc else handleKeyDown key zc.

(** The settings a dolly operation leaves alone. *)
Definition same_settings (zc zc' : t) : Prop :=
  Three.isPerspectiveCamera (object zc') = Three.isPerspectiveCamera (object zc)
  /\ minFov zc' = minFov zc
  /\ maxFov zc' = maxFov zc
  /\ zoomSpeed zc' = zoomSpeed zc.

(** The field of view after [n] calls of a dolly operation. *)
Definition fov_after (op : t -> t) (n : nat) (zc : t) : R :=
  Three.fov (object (Nat.iter n op zc)).

End ZoomControls.

(** ** The NDLAThreeSixty coordinator and its element handling *)

Module ThreeSixty.
Import Js.

Record Position : Type := mkPosition { yaw : R; pitch : R }.

(** A CSS2DObject or CSS3DObject wrapping a DOM element; [oid] is the
    object's identity. *)
Record ThreeElement : Type := mkThreeElement {
  oid : Handle;
  source : Handle;
  is3d : bool;
  position : Three.Vector3;
  el_rotation : Three.Euler
}.

(** What the coordinator triggers towards its host. *)
Inductive HostEvent : Type :=
| Movestart (d : PositionControls.MovestartData)
| Movestop (data : Position)
| Firstrender.

(** [fieldOfView] is the constant the constructor computes and the
    camera's move listener captures.  [isPanorama] and
    [preventDeviceOrientation] are not assigned by the constructor.
    [triggered] lists the events triggered so far, oldest first. *)
Record t : Type := mk {
  camera : Three.Camera;
  cameraControls : PositionControls.t;
  fieldOfView : R;
  ratio : R;
  isPanorama : JsVal;
  preventDeviceOrientation : JsVal;
  preventCameraMovement : bool;
  threeElements : list ThreeElement;
  triggered : list HostEvent
}.

Definition with_camera (c : Three.Camera) (s : t) : t :=
  mk c (cameraControls s) (fieldOfView s) (ratio s) (isPanorama s)
     (preventDeviceOrientation s) (preventCameraMovement s)
     (threeElements s) (triggered s).

Definition with_cameraControls (cc : PositionControls.t) (s : t) : t :=
  mk (camera s) cc (fieldOfView s) (ratio s) (isPanorama s)
     (preventDeviceOrientation s) (preventCameraMovement s)
     (threeElements s) (triggered s).

Definition with_isPanorama (v : JsVal) (s : t) : t :=
  mk (camera s) (cameraControls s) (fieldOfView s) (ratio s) v
     (preventDeviceOrientation s) (preventCameraMovement s)
     (threeElements s) (triggered s).

Definition with_preventDeviceOrientation (v : JsVal) (s : t) : t :=
  mk (camera s) (cameraControls s) (fieldOfView s) (ratio s) (isPanorama s)
     v (preventCameraMovement s) (threeElements s) (triggered s).

Definition with_preventCameraMovement (b : bool) (s : t) : t :=
  mk (camera s) (cameraControls s) (fieldOfView s) (ratio s) (isPanorama s)
     (preventDeviceOrientation s) b (threeElements s) (triggered s).

Definition with_threeElements (l : list ThreeElement) (s : t) : t :=
  mk (camera s) (cameraControls s) (fieldOfView s) (ratio s) (isPanorama s)
     (preventDeviceOrientation s) (preventCameraMovement s) l (triggered s).

(** [this.trigger(event)]. *)
Definition trigger (e : HostEvent) (s : t) : t :=
  mk (camera s) (cameraControls s) (fieldOfView s) (ratio s) (isPanorama s)
     (preventDeviceOrientation s) (preventCameraMovement s)
     (threeElements s) (triggered s ++ [e]).

(** [NDLAThreeSixty.MAX_PITCH]. *)
Definition MAX_PITCH : R := PI / 2.

(** [static toRad(value)]. *)
Definition toRad (value : R) : R := value * (PI / 180).

(** [getCurrentPosition()]. *)
Definition getCurrentPosition (s : t) : Position :=
  mkPosition (- Three.rot_y (Three.rotation (camera s)))
             (Three.rot_x (Three.rotation (camera s))).

(** [setCameraPosition(yaw, pitch)]. *)
Definition setCameraPosition (yaw0 pitch0 : R) (s : t) : t :=
  if truthy (preventDeviceOrientation s) then s
  else
    let r := Three.rotation (camera s) in
    let r1 :=
      Three.mkEuler (if truthy (isPanorama s) then 0 else pitch0) (- yaw0)
                    (Three.rot_z r) (Three.order r) in
    trigger (Movestop (mkPosition yaw0 pitch0))
            (with_camera (Three.set_rotation r1 (camera s)) s).

(** [setPreventCameraMovement(flag)]. *)
Definition setPreventCameraMovement (b : bool) (s : t) : t :=
  with_preventCameraMovement b s.

(** [remove(threeElement)]; detaching the object from the CSS scene is
    the backend's part. *)
Definition remove (threeElement : ThreeElement) (s : t) : t :=
  with_threeElements
    (splice (indexOf (fun e => Nat.eqb (oid e) (oid threeElement))
                     (threeElements s))
            1 (threeElements s))
    s.

(** [find(element)]: the first object wrapping the DOM element. *)
Definition find (element : Handle) (s : t) : option ThreeElement :=
  List.find (fun e => Nat.eqb (source e) element) (threeElements s).

(** [setSourceElement(element, isPanorama)]; the texture source is the
    backend's part. *)
Definition setSourceElement (isPanorama0 : JsVal) (s : t) : t :=
  let s1 := with_isPanorama isPanorama0 s in
  let s2 :=
    with_camera
      (Three.set_fov (if truthy (isPanorama s1) then 53 else 75) (camera s1))
      s1 in
  with_cameraControls
    (PositionControls.setPanorama (isPanorama s2) (cameraControls s2)) s2.

(** [NDLAThreeSixty.setElementPosition(threeElement, position)]. *)
Definition setElementPosition (threeElement : ThreeElement) (p : Position)
    : ThreeElement :=
  let radius := 800 in
  mkThreeElement (oid threeElement) (source threeElement) (is3d threeElement)
    (Three.mkVector3
       (radius * sin (yaw p) * cos (pitch p))
       (radius * sin (pitch p))
       (- radius * cos (yaw p) * cos (pitch p)))
    (Three.mkEuler (pitch p) (- yaw p)
                   (Three.rot_z (el_rotation threeElement)) "YXZ").

(** The camera controls' [move] listener. *)
Definition onCameraMove (event : PositionControls.MoveEvent) (s : t) : t :=
  let yaw0 :=
    PositionControls.startY (cameraControls s) + PositionControls.ev_alpha event in
  let pitch0 :=
    PositionControls.startX (cameraControls s) + PositionControls.ev_beta event in
  let radsFromCameraCenter := toRad (fieldOfView s) / 2 in
  let pitch1 :=
    if Rgt_dec (pitch0 + radsFromCameraCenter) MAX_PITCH
    then MAX_PITCH - radsFromCameraCenter
    else if Rlt_dec (pitch0 - radsFromCameraCenter) (- MAX_PITCH)
    then - MAX_PITCH + radsFromCameraCenter
    else pitch0 in
  let yaw1 := JsNum.rem yaw0 (PI * 2) in
  let yaw2 := if Rlt_dec yaw1 0 then yaw1 + PI * 2 else yaw1 in
  let r := Three.rotation (camera s) in
  with_camera
    (Three.set_rotation
       (Three.mkEuler pitch1 yaw2 (Three.rot_z r) (Three.order r))
       (camera s))
    s.

(** The camera controls' [movestop] listener. *)
Definition onCameraMovestop (s : t) : t :=
  let s1 := with_preventDeviceOrientation (JBool false) s in
  trigger
    (Movestop
       (mkPosition (- Three.rot_y (Three.rotation (camera s1)))
                   (Three.rot_x (Three.rotation (camera s1)))))
    s1.

Section Host.

(** Whether the host's listeners prevent the relayed [movestart]. *)
Variable host_prevents : PositionControls.MovestartData -> bool.

(** The camera controls' [movestart] listener. *)
Definition onCameraMovestart (event : PositionControls.MovestartData)
    (s : t) : t * bool :=
  let cc :=
    PositionControls.set_start_rotation
      (Three.rot_x (Three.rotation (camera s)))
      (Three.rot_y (Three.rotation (camera s)))
      (cameraControls s) in
  let s1 := with_preventDeviceOrientation (JBool true) (with_cameraControls cc s) in
  (trigger (Movestart event) s1, host_prevents event).

(** [cameraControls.start(...)] with its listener. *)
Definition cameraControls_start (x0 y0 : R) (control : string)
    (event : option Handle) (s : t) : bool * t :=
  PositionControls.start cameraControls with_cameraControls onCameraMovestart
                         x0 y0 control event s.

End Host.

(** [cameraControls.move(...)] with its listener. *)
Definition cameraControls_move (deltaX deltaY friction0 : R) (s : t) : t :=
  let '(cc, event) :=
    PositionControls.move deltaX deltaY friction0 (cameraControls s) in
  onCameraMove event (with_cameraControls cc s).

(** [cameraControls.end()] with its listener. *)
Definition cameraControls_end (s : t) : t :=
  onCameraMovestop
    (with_cameraControls (PositionControls.end_ (cameraControls s)) s).

(** The constructor's options. *)
Record Options : Type := mkOptions {
  opt_ratio : option R;
  opt_cameraStartPosition : option (option R * option R);
  opt_isPanorama : bool
}.

(** [constructor(sourceElement, options)], as far as the fields above go;
    [dom] is the element the camera controls listen on. *)
Definition new_ (dom : Handle) (options : Options) : t :=
  let fieldOfView0 := if opt_isPanorama options then 53 else 75 in
  let ratio0 :=
    match opt_ratio options with
    | Some r => if Req_dec_T r 0 then 16 / 9 else r
    | None => 16 / 9
    end in
  let camera0 :=
    Three.set_rotation (Three.mkEuler 0 0 0 "YXZ")
                       (Three.PerspectiveCamera fieldOfView0 ratio0) in
  let camPos :=
    match opt_cameraStartPosition options with
    | Some p => p
    | None => (None, None)
    end in
  let s0 :=
    mk camera0
       (PositionControls.new_ dom (Some 400) true (Some true)
                              (Some (opt_isPanorama options)))
       fieldOfView0 ratio0 JUndefined JUndefined false [] [] in
  setCameraPosition
    (match fst camPos with Some v => v | None => - (PI * (2 / 3)) end)
    (match snd camPos with Some v => v | None => 0 end)
    s0.

End ThreeSixty.

(** ** The input listeners of position-controls.js

    The DOM events a controller listens to, the listeners it has
    registered for the time of a session, and the [move] and [movestop]
    events it triggers in answer. *)

Module PositionInput.
Import Js.

Definition set_prevPosition (p : option PositionControls.Point)
    (pc : PositionControls.t) : PositionControls.t :=
  PositionControls.mk
    (PositionControls.element pc) (PositionControls.friction pc)
    (PositionControls.invert pc) (PositionControls.isCamera pc)
    (PositionControls.isPanorama pc) (PositionControls.alpha pc)
    (PositionControls.beta pc) (PositionControls.startPosition pc) p
    (PositionControls.keyStillDown pc) (PositionControls.controlActive pc)
    (PositionControls.startX pc) (PositionControls.startY pc).

Definition set_keyStillDown (k : option Z)
    (pc : PositionControls.t) : PositionControls.t :=
  PositionControls.mk
    (PositionControls.element pc) (PositionControls.friction pc)
    (PositionControls.invert pc) (PositionControls.isCamera pc)
    (PositionControls.isPanorama pc) (PositionControls.alpha pc)
    (PositionControls.beta pc) (PositionControls.startPosition pc)
    (PositionControls.prevPosition pc) k
    (PositionControls.controlActive pc)
    (PositionControls.startX pc) (PositionControls.startY pc).

(** What the listeners receive.  A mouse move carries [movementX] and
    [movementY] where the browser has them; touch events carry the page
    position of [changedTouches[0]]. *)
Inductive DomEvent : Type :=
| MouseDown (which : Z) (pageX pageY : R) (target : Handle)
| MouseMove (movementX movementY : option R) (pageX pageY : R)
| MouseUp
| TouchStart (pageX pageY : R)
| TouchMove (cancelable : bool) (pageX pageY : R)
| TouchEnd
| KeyDown (which : Z)
| KeyUp.

(** What a listener triggers. *)
Inductive Emitted : Type :=
| EmMove (e : PositionControls.MoveEvent)
| EmMovestop.

(** A controller with the listeners it registers on the way: mouse move
    and up on the window, touch move and end and key up on the element.
    The listeners for mouse down, touch start and key down are there
    from the constructor on. *)
Record t : Type := mk {
  controls : PositionControls.t;
  mouseListening : bool;
  touchListening : bool;
  keyupListening : bool
}.

Definition with_controls (pc : PositionControls.t) (st : t) : t :=
  mk pc (mouseListening st) (touchListening st) (keyupListening st).

Definition new_ (el : Handle) (fr : option R) (shouldInvert : bool)
    (cam pano : option bool) : t :=
  mk (PositionControls.new_ el fr shouldInvert cam pano) false false false.

(** [this.move(...)] followed by its trigger. *)
Definition moved (deltaX deltaY friction0 : R) (st : t) : t * list Emitted :=
  let '(pc, e) := PositionControls.move deltaX deltaY friction0 (controls st) in
  (with_controls pc st, [EmMove e]).

(** The position a pointer delta is taken from: [prevPosition], which an
    unset value makes a copy of [startPosition]; reading an unset
    [startPosition] throws. *)
Definition origin (pc : PositionControls.t) : option PositionControls.Point :=
  match PositionControls.prevPosition pc with
  | Some p => Some p
  | None => PositionControls.startPosition pc
  end.

Section Owner.

(** The owner's [movestart] listeners: the start rotation they attach
    and whether they prevent the start. *)
Variable owner : PositionControls.MovestartData -> R * R * bool.

Definition listener (d : PositionControls.MovestartData)
    (pc : PositionControls.t) : PositionControls.t * bool :=
  let '(sx, sy, veto) := owner d in
  PositionControls.own_listener sx sy veto d pc.

Definition start (x0 y0 : R) (control : string) (event : option Handle)
    (pc : PositionControls.t) : bool * PositionControls.t :=
  PositionControls.start (fun pc => pc) (fun pc' _ => pc') listener
                         x0 y0 control event pc.

(** [handleMouseDown(event)]. *)
Definition handleMouseDown (which : Z) (pageX pageY : R) (target : Handle)
    (st : t) : t :=
  if negb (which =? 1)%Z then st
  else
    let '(ok, pc) := start pageX pageY "mouse" (Some target) (controls st) in
    if negb ok then with_controls pc st
    else mk pc true (touchListening st) (keyupListening st).

(** [handleTouchStart(event)]. *)
Definition handleTouchStart (pageX pageY : R) (st : t) : t :=
  let '(ok, pc) := start pageX pageY "touch" None (controls st) in
  if negb ok then with_controls pc st
  else mk pc (mouseListening st) true (keyupListening st).

(** [handleKeyDown(event)]; [None] in [keyStillDown] is [null]. *)
Definition handleKeyDown (which : Z) (st : t) : t * list Emitted :=
  let isArrowKey :=
    existsb (Z.eqb which) [37; 100; 38; 104; 39; 102; 40; 98]%Z in
  if negb isArrowKey then (st, [])
  else
    let st1 :=
      match PositionControls.keyStillDown (controls st) with
      | None =>
          let '(ok, pc) := start 0 0 "keyboard" None (controls st) in
          if ok then
            mk (set_keyStillDown (Some which) pc)
               (mouseListening st) (touchListening st) true
          else with_controls pc st
      | Some _ => st
      end in
    match PositionControls.keyStillDown (controls st1) with
    | Some k =>
        if negb (k =? which)%Z then (st1, [])
        else
          let inv := PositionControls.invert (controls st1) in
          let '(dx, dy) :=
            if ((which =? 37) || (which =? 100))%Z then (0 + inv, 0)
            else if ((which =? 38) || (which =? 104))%Z then (0, 0 + inv)
            else if ((which =? 39) || (which =? 102))%Z then (0 - inv, 0)
            else if ((which =? 40) || (which =? 98))%Z then (0, 0 - inv)
            else (0, 0) in
          moved dx dy (PositionControls.friction (controls st1) * (25 / 1000)) st1
    | None => (st1, [])
    end.

End Owner.

(** [handleMouseMove(event)]; [None] is the TypeError of reading an unset
    [startPosition]. *)
Definition handleMouseMove (movementX movementY : option R) (pageX pageY : R)
    (st : t) : option (t * list Emitted) :=
  let diffs :=
    match movementX, movementY with
    | Some xDiff, Some yDiff => Some (xDiff, yDiff, st)
    | _, _ =>
        match origin (controls st) with
        | None => None
        | Some prev =>
            Some (pageX - PositionControls.x prev,
                  pageY - PositionControls.y prev,
                  with_controls
                    (set_prevPosition
                       (Some (PositionControls.mkPoint pageX pageY))
                       (controls st))
                    st)
        end
    end in
  match diffs with
  | None => None
  | Some (xDiff, yDiff, st1) =>
      if Req_dec_T xDiff 0 then
        if Req_dec_T yDiff 0 then Some (st1, [])
        else Some (moved xDiff yDiff (PositionControls.friction (controls st1)) st1)
      else Some (moved xDiff yDiff (PositionControls.friction (controls st1)) st1)
  end.

(** [handleMouseUp()]. *)
Definition handleMouseUp (st : t) : t * list Emitted :=
  (mk (PositionControls.end_ (set_prevPosition None (controls st)))
      false (touchListening st) (keyupListening st),
   [EmMovestop]).

(** [handleTouchMove(event)]. *)
Definition handleTouchMove (cancelable : bool) (pageX pageY : R)
    (st : t) : option (t * list Emitted) :=
  if negb cancelable then Some (st, [])
  else
    match origin (controls st) with
    | None => None
    | Some prev =>
        let deltaX := pageX - PositionControls.x prev in
        let deltaY := pageY - PositionControls.y prev in
        let st1 :=
          with_controls
            (set_prevPosition (Some (PositionControls.mkPoint pageX pageY))
                              (controls st))
            st in
        Some (moved deltaX deltaY
                    (PositionControls.friction (controls st1) * (75 / 100)) st1)
    end.

(** [handleTouchEnd()]. *)
Definition handleTouchEnd (st : t) : t * list Emitted :=
  (mk (PositionControls.end_ (set_prevPosition None (controls st)))
      (mouseListening st) false (keyupListening st),
   [EmMovestop]).

(** [handleKeyUp()]. *)
Definition handleKeyUp (st : t) : t * list Emitted :=
  (mk (PositionControls.end_ (set_keyStillDown None (controls st)))
      (mouseListening st) (touchListening st) false,
   [EmMovestop]).

(** The browser hands an event to the listeners registered for it. *)
Definition dispatch (owner : PositionControls.MovestartData -> R * R * bool)
    (e : DomEvent) (st : t) : option (t * list Emitted) :=
  match e with
  | MouseDown which pageX pageY target =>
      Some (handleMouseDown owner which pageX pageY target st, [])
  | MouseMove mx my pageX pageY =>
      if mouseListening st then handleMouseMove mx my pageX pageY st
      else Some (st, [])
  | MouseUp =>
      if mouseListening st then Some (handleMouseUp st) else Some (st, [])
  | TouchStart pageX pageY => Some (handleTouchStart owner pageX pageY st, [])
  | TouchMove cancelable pageX pageY =>
      if touchListening st then handleTouchMove cancelable pageX pageY st
      else Some (st, [])
  | TouchEnd =>
      if touchListening st then Some (handleTouchEnd st) else Some (st, [])
  | KeyDown which => Some (handleKeyDown owner which st)
  | KeyUp =>
      if keyupListening st then Some (handleKeyUp st) else Some (st, [])
  end.

(** A sequence of events, with everything triggered on the way. *)
Fixpoint run (owner : PositionControls.MovestartData -> R * R * bool)
    (es : list DomEvent) (st : t) : option (t * list Emitted) :=
  match es with
  | [] => Some (st, [])
  | e :: es' =>
      match dispatch owner e st with
      | None => None
      | Some (st1, out1) =>
          match run owner es' st1 with
          | None => None
          | Some (st2, out2) => Some (st2, out1 ++ out2)
          end
      end
  end.

(** The sums of the yaw and pitch deltas of the triggered moves. *)
Fixpoint sum_alphaDelta (out : list Emitted) : R :=
  match out with
  | [] => 0
  | EmMove e :: out' => PositionControls.alphaDelta e + sum_alphaDelta out'
  | EmMovestop :: out' => sum_alphaDelta out'
  end.

Fixpoint sum_betaDelta (out : list Emitted) : R :=
  match out with
  | [] => 0
  | EmMove e :: out' => PositionControls.betaDelta e + sum_betaDelta out'
  | EmMovestop :: out' => sum_betaDelta out'
  end.

(** What holds between sessions and within one: the listeners
    registered are those of the active control, a held key belongs to a
    keyboard session, and a pointer position is remembered only within a
    pointer session, which has its start position. *)
Definition idle (st : t) : Prop :=
  truthy (PositionControls.controlActive (controls st)) = false
  /\ mouseListening st = false /\ touchListening st = false
  /\ keyupListening st = false
  /\ PositionControls.keyStillDown (controls st) = None
  /\ PositionControls.prevPosition (controls st) = None.

Definition in_mouse (st : t) : Prop :=
  PositionControls.controlActive (controls st) = JStr "mouse"
  /\ mouseListening st = true /\ touchListening st = false
  /\ keyupListening st = false
  /\ PositionControls.keyStillDown (controls st) = None
  /\ PositionControls.startPosition (controls st) <> None.

Definition in_touch (st : t) : Prop :=
  PositionControls.controlActive (controls st) = JStr "touch"
  /\ mouseListening st = false /\ touchListening st = true
  /\ keyupListening st = false
  /\ PositionControls.keyStillDown (controls st) = None
  /\ PositionControls.startPosition (controls st) <> None.

Definition in_keyboard (st : t) : Prop :=
  PositionControls.controlActive (controls st) = JStr "keyboard"
  /\ mouseListening st = false /\ touchListening st = false
  /\ keyupListening st = true
  /\ PositionControls.keyStillDown (controls st) <> None
  /\ PositionControls.prevPosition (controls st) = None.

Definition consistent (st : t) : Prop :=
  idle st \/ in_mouse st \/ in_touch st \/ in_keyboard st.

End PositionInput.

(** ** Runs of moves

    The moves of one drag, each given as [(deltaX, deltaY, friction)],
    applied in order. *)

Module Drag.

Fixpoint moves (ms : list (R * R * R)) (pc : PositionControls.t)
    : PositionControls.t :=
  match ms with
  | [] => pc
  | (dx, dy, f) :: ms' => moves ms' (fst (PositionControls.move dx dy f pc))
  end.

Fixpoint camera_moves (ms : list (R * R * R)) (s : ThreeSixty.t) : ThreeSixty.t :=
  match ms with
  | [] => s
  | (dx, dy, f) :: ms' => camera_moves ms' (ThreeSixty.cameraControls_move dx dy f s)
  end.

(** The yaw a run of moves asks for in all. *)
Fixpoint total_yaw (ms : list (R * R * R)) : R :=
  match ms with
  | [] => 0
  | (dx, _, f) :: ms' => dx / f + total_yaw ms'
  end.

End Drag.

(** ** The world geometry and the render loop of the coordinator

    Building the mesh and drawing are the backend's; what is kept here
    is which geometry the coordinator holds, the id of the scheduled
    frame and the flag behind the [firstrender] event. *)

Module Rendering.
Import Js.

Inductive Geometry : Type :=
| SphereGeometry (radius widthSegments heightSegments : R)
| CylinderGeometry (radiusTop radiusBottom height radialSegments
                    heightSegments : R) (openEnded : bool).

(** [scene] holds the coordinator's other fields.  An unset [sphere] and
    the [null] of [renderLoopId] are [None]; [triggerFirstRenderEvent]
    is not assigned by the constructor. *)
Record t : Type := mk {
  scene : ThreeSixty.t;
  radius : R;
  segmentation : R;
  sphere : option Geometry;
  renderLoopId : option Z;
  triggerFirstRenderEvent : JsVal
}.

(** The constructor: [radius = 10], [segmentation = options.segments || 4]. *)
Definition new_ (dom : Handle) (options : ThreeSixty.Options)
    (segments : option R) : t :=
  mk (ThreeSixty.new_ dom options) 10
     (match segments with
      | Some n => if Req_dec_T n 0 then 4 else n
      | None => 4
      end)
     None None JUndefined.

Definition with_scene (s : ThreeSixty.t) (r : t) : t :=
  mk s (radius r) (segmentation r) (sphere r) (renderLoopId r)
     (triggerFirstRenderEvent r).

Definition with_sphere (g : option Geometry) (r : t) : t :=
  mk (scene r) (radius r) (segmentation r) g (renderLoopId r)
     (triggerFirstRenderEvent r).

Definition with_renderLoopId (i : option Z) (r : t) : t :=
  mk (scene r) (radius r) (segmentation r) (sphere r) i
     (triggerFirstRenderEvent r).

Definition with_triggerFirstRenderEvent (v : JsVal) (r : t) : t :=
  mk (scene r) (radius r) (segmentation r) (sphere r) (renderLoopId r) v.

(** [setSegmentNumber(numSegments)]. *)
Definition setSegmentNumber (numSegments : R) (r : t) : t :=
  mk (scene r) (radius r) numSegments (sphere r) (renderLoopId r)
     (triggerFirstRenderEvent r).

(** [createSphere()]. *)
Definition createSphere (r : t) : t :=
  with_sphere
    (Some (SphereGeometry (radius r) (segmentation r) (segmentation r))) r.

(** [createCylinder()]. *)
Definition createCylinder (r : t) : t :=
  with_sphere
    (Some (CylinderGeometry (radius r) (radius r) (radius r)
                            (segmentation r) (segmentation r) true)) r.

(** [disposeSphere()]; [None] is the TypeError of reaching into an unset
    sphere. *)
Definition disposeSphere (r : t) : option t :=
  match sphere r with
  | Some _ => Some (with_sphere None r)
  | None => None
  end.

(** [update()]. *)
Definition update (r : t) : t :=
  let r1 := match sphere r with Some _ => with_sphere None r | None => r end in
  with_triggerFirstRenderEvent (JBool true) (createSphere r1).

(** [updateCylinder()]. *)
Definition updateCylinder (r : t) : t :=
  let r1 := match sphere r with Some _ => with_sphere None r | None => r end in
  with_triggerFirstRenderEvent (JBool true) (createCylinder r1).

(** [updateSource()]: marks the texture of the sphere for upload. *)
Definition updateSource (r : t) : option t :=
  match sphere r with
  | Some _ => Some r
  | None => None
  end.

(** [render()]; [id] is what [requestAnimationFrame] returns for the
    next frame. *)
Definition render (id : Z) (r : t) : t :=
  let r1 := with_renderLoopId (Some id) r in
  if truthy (triggerFirstRenderEvent r1) then
    with_scene (ThreeSixty.trigger ThreeSixty.Firstrender (scene r1))
               (with_triggerFirstRenderEvent (JBool false) r1)
  else r1.

(** [startRendering()]. *)
Definition startRendering (id : Z) (r : t) : t :=
  match renderLoopId r with
  | Some _ => r
  | None => render id r
  end.

(** [stopRendering()]. *)
Definition stopRendering (r : t) : t := with_renderLoopId None r.

(** The frames the browser runs while the loop is scheduled, each with
    the id of the frame after it. *)
Fixpoint frames (ids : list Z) (r : t) : t :=
  match ids with
  | [] => r
  | id :: ids' => frames ids' (render id r)
  end.

End Rendering.

(** ** The pinch gesture of zoom-controls.js *)

Module Pinch.

Record Vector2 : Type := mkVector2 { x : R; y : R }.

(** A zoom controller with the three vectors its touch listeners keep. *)
Record t : Type := mk {
  zoom : ZoomControls.t;
  dollyStart : Vector2;
  dollyEnd : Vector2;
  dollyDelta : Vector2
}.

Definition new_ (object0 : Three.Camera) (isPanorama : bool) : t :=
  mk (ZoomControls.new_ object0 isPanorama)
     (mkVector2 0 0) (mkVector2 0 0) (mkVector2 0 0).

(** [Math.pow] where the model has its result: a positive base to any
    exponent, and base 0 to a non-negative one.  [None] stands for the
    rest: a non-finite result, or a negative base, which no distance
    is. *)
Definition Math_pow (base exponent : R) : option R :=
  if Rlt_dec 0 base then Some (Rpower base exponent)
  else if Req_dec_T base 0 then
    if Rlt_dec 0 exponent then Some 0
    else if Req_dec_T exponent 0 then Some 1
    else None
  else None.

(** The distance between two touch points, as both listeners take it. *)
Definition distance (t0 t1 : R * R) : R :=
  let dx := fst t0 - fst t1 in
  let dy := snd t0 - snd t1 in
  sqrt (dx * dx + dy * dy).

(** [handleTouchStartDolly(event)], by the page positions of
    [touches[0]] and [touches[1]]. *)
Definition handleTouchStartDolly (t0 t1 : R * R) (st : t) : t :=
  mk (zoom st) (mkVector2 0 (distance t0 t1)) (dollyEnd st) (dollyDelta st).

(** [handleTouchMoveDolly(event)]; [None] where the ratio of the
    distances or its power is not a finite number. *)
Definition handleTouchMoveDolly (t0 t1 : R * R) (st : t) : option t :=
  let dollyEnd1 := mkVector2 0 (distance t0 t1) in
  if Req_dec_T (y (dollyStart st)) 0 then None
  else
    match Math_pow (y dollyEnd1 / y (dollyStart st))
                   (ZoomControls.zoomSpeed (zoom st)) with
    | None => None
    | Some v =>
        let st1 := mk (zoom st) (dollyStart st) dollyEnd1 (mkVector2 0 v) in
        if Rlt_dec v 1 then
          Some (mk (ZoomControls.dollyOut None (zoom st1)) (dollyStart st1)
                   (dollyEnd st1) (dollyDelta st1))
        else if Rgt_dec v 1 then
          Some (mk (ZoomControls.dollyIn None (zoom st1)) (dollyStart st1)
                   (dollyEnd st1) (dollyDelta st1))
        else Some st1
    end.

(** [onTouchStart(event)], by the positions of [event.touches]. *)
Definition onTouchStart (touches : list (R * R)) (st : t) : t :=
  if negb (ZoomControls.enableZoom (zoom st)) then st
  else
    match touches with
    | [t0; t1] => handleTouchStartDolly t0 t1 st
    | _ => st
    end.

(** [onTouchMove(event)]. *)
Definition onTouchMove (touches : list (R * R)) (st : t) : option t :=
  if negb (ZoomControls.enableZoom (zoom st)) then Some st
  else
    match touches with
    | [t0; t1] => handleTouchMoveDolly t0 t1 st
    | _ => Some st
    end.

End Pinch.

(** * Properties *)

Module NumFacts.
Import JsNum.

Lemma Int_part_spec (x : R) : IZR (Int_part x) <= x < IZR (Int_part x) + 1.
Proof.
  destruct (base_Int_part x) as [H1 H2]. lra.
Qed.

Lemma trunc_nonneg (x : R) :
  0 <= x -> IZR (trunc x) <= x < IZR (trunc x) + 1 /\ 0 <= IZR (trunc x).
Proof.
  intros Hx. unfold trunc. destruct (Rle_dec 0 x) as [_|n]; [|contradiction].
  pose proof (Int_part_spec x) as Hs. split; [exact Hs|].
  destruct (Z_lt_le_dec (Int_part x) 0) as [Hneg|Hpos].
  - assert (Int_part x + 1 <= 0)%Z as Hle by lia.
    apply IZR_le in Hle. rewrite plus_IZR in Hle. simpl in Hle. lra.
  - apply IZR_le in Hpos. exact Hpos.
Qed.

Lemma trunc_neg (x : R) :
  x < 0 -> IZR (trunc x) - 1 < x <= IZR (trunc x) /\ IZR (trunc x) <= 0.
Proof.
  intros Hx. unfold trunc. destruct (Rle_dec 0 x) as [Hle|_]; [lra|].
  pose proof (Int_part_spec (- x)) as Hs. rewrite opp_IZR.
  split; [lra|].
  destruct (Z_lt_le_dec (Int_part (- x)) 0) as [Hneg|Hpos].
  - assert (Int_part (- x) + 1 <= 0)%Z as Hle by lia.
    apply IZR_le in Hle. rewrite plus_IZR in Hle. simpl in Hle. lra.
  - apply IZR_le in Hpos. lra.
Qed.

Lemma trunc_small (x : R) : -1 < x < 1 -> trunc x = 0%Z.
Proof.
  intros [Hl Hu]. destruct (Rle_dec 0 x) as [Hx|Hx].
  - destruct (trunc_nonneg x Hx) as [[H1 H2] H3].
    apply eq_IZR. apply Rle_antisym; [|exact H3].
    destruct (Z_lt_le_dec 0 (trunc x)) as [Hpos|Hnp].
    + assert (1 <= trunc x)%Z as Hle by lia. apply IZR_le in Hle. lra.
    + apply IZR_le in Hnp. exact Hnp.
  - assert (x < 0) as Hneg by lra.
    destruct (trunc_neg x Hneg) as [[H1 H2] H3].
    apply eq_IZR. apply Rle_antisym; [exact H3|].
    destruct (Z_lt_le_dec (trunc x) 0) as [Hn|Hnn].
    + assert (trunc x <= -1)%Z as Hle by lia. apply IZR_le in Hle. lra.
    + apply IZR_le in Hnn. exact Hnn.
Qed.

Lemma div_bounds (a b : R) :
  0 < b -> forall k : R, (k * b <= a <-> k <= a / b) /\ (a < k * b <-> a / b < k).
Proof.
  intros Hb k.
  assert (a / b * b = a) as E by (field; lra).
  split; split; intros H.
  - apply Rmult_le_reg_r with b; [lra|]. lra.
  - rewrite <- E. apply Rmult_le_compat_r; lra.
  - apply Rmult_lt_reg_r with b; [lra|]. lra.
  - rewrite <- E. apply Rmult_lt_compat_r; lra.
Qed.

(** A dividend of smaller magnitude than the divisor is returned as is. *)
Lemma rem_small (a b : R) : 0 < b -> - b < a < b -> rem a b = a.
Proof.
  intros Hb [Hl Hu]. unfold rem.
  rewrite trunc_small; [simpl; lra|].
  destruct (div_bounds a b Hb 1) as [_ H1].
  destruct (div_bounds a b Hb (-1)) as [_ H2].
  split.
  - destruct (Rlt_le_dec (-1) (a / b)) as [H|H]; [exact H|].
    destruct (div_bounds a b Hb (-1)) as [_ H3].
    exfalso. destruct H as [H|H].
    + apply H3 in H. lra.
    + assert (a = a / b * b) as E by (field; lra). rewrite H in E. lra.
  - apply H1. lra.
Qed.

(** The remainder of a non-negative dividend lies in [[0, b)]. *)
Lemma rem_nonneg (a b : R) : 0 < b -> 0 <= a -> 0 <= rem a b < b.
Proof.
  intros Hb Ha. unfold rem.
  assert (0 <= a / b) as Hq.
  { apply Rmult_le_pos; [exact Ha|]. left. apply Rinv_0_lt_compat. exact Hb. }
  destruct (trunc_nonneg (a / b) Hq) as [[H1 H2] _].
  assert (a / b * b = a) as E by (field; lra).
  set (k := IZR (trunc (a / b))) in *.
  assert (k * b <= a / b * b) by (apply Rmult_le_compat_r; lra).
  assert (a / b * b < (k + 1) * b) by (apply Rmult_lt_compat_r; lra).
  lra.
Qed.

(** The remainder of a negative dividend lies in [(-b, 0]]: the sign
    follows the dividend. *)
Lemma rem_neg (a b : R) : 0 < b -> a < 0 -> - b < rem a b <= 0.
Proof.
  intros Hb Ha. unfold rem.
  assert (a / b < 0) as Hq.
  { assert (0 < - a / b).
    { apply Rmult_lt_0_compat; [lra|]. apply Rinv_0_lt_compat. exact Hb. }
    unfold Rdiv in *. lra. }
  destruct (trunc_neg (a / b) Hq) as [[H1 H2] _].
  assert (a / b * b = a) as E by (field; lra).
  set (k := IZR (trunc (a / b))) in *.
  assert (a / b * b <= k * b) by (apply Rmult_le_compat_r; lra).
  assert ((k - 1) * b < a / b * b) by (apply Rmult_lt_compat_r; lra).
  lra.
Qed.

Lemma rem_bounds (a b : R) : 0 < b -> - b < rem a b < b.
Proof.
  intros Hb. destruct (Rle_dec 0 a) as [Ha|Ha].
  - pose proof (rem_nonneg a b Hb Ha). lra.
  - assert (a < 0) as Hn by lra. pose proof (rem_neg a b Hb Hn). lra.
Qed.

(** One turn is subtracted from a dividend in [[b, 2b)]. *)
Lemma rem_one_turn (a b : R) : 0 < b -> b <= a < 2 * b -> rem a b = a - b.
Proof.
  intros Hb [Hl Hu]. unfold rem.
  assert (0 <= a / b) as Hq.
  { apply Rmult_le_pos; [lra|]. left. apply Rinv_0_lt_compat. exact Hb. }
  destruct (trunc_nonneg (a / b) Hq) as [[H1 H2] _].
  destruct (div_bounds a b Hb 1) as [Hle1 _].
  destruct (div_bounds a b Hb 2) as [_ Hlt2].
  assert (1 <= a / b) as Hq1 by (apply Hle1; lra).
  assert (a / b < 2) as Hq2 by (apply Hlt2; lra).
  assert (trunc (a / b) = 1%Z) as ->.
  { assert (0 < trunc (a / b))%Z as Hp by (apply lt_IZR; lra).
    assert (trunc (a / b) < 2)%Z as Hq' by (apply lt_IZR; lra).
    lia. }
  lra.
Qed.

Lemma clamp_bounds (v lo hi : R) : lo <= hi -> lo <= clamp v lo hi <= hi.
Proof.
  intros H. unfold clamp, Rmax, Rmin.
  destruct (Rle_dec hi v); destruct (Rle_dec lo _); lra.
Qed.

Lemma clamp_id (v lo hi : R) : lo <= v <= hi -> clamp v lo hi = v.
Proof.
  intros H. unfold clamp, Rmax, Rmin.
  destruct (Rle_dec hi v); destruct (Rle_dec lo _); lra.
Qed.

(** [Math.PI] between 3.141 and 3.143, from a Machin-like formula. *)
Lemma PI_bounds : 3141 / 1000 < PI < 3143 / 1000.
Proof.
  destruct (PI_2_3_7_ineq 1) as [Hl Hu].
  unfold sum_f_R0, tg_alt, PI_2_3_7_tg, Ratan_seq in Hl, Hu.
  simpl in Hl, Hu. lra.
Qed.

End NumFacts.

(** ** The accumulators of PositionControls *)

Module PositionFacts.
Import Js JsNum NumFacts PositionControls.

Lemma two_pi_pos : 0 < PI * 2.
Proof. pose proof PI_RGT_0. lra. Qed.

(** The two-branch limiter of the code is a clamp to a symmetric
    interval. *)
Lemma limiter_is_clamp (v h : R) :
  0 <= h ->
  (if Rgt_dec v h then h else if Rlt_dec v (- h) then - h else v)
  = clamp v (- h) h.
Proof.
  intros Hh. unfold clamp, Rmax, Rmin.
  destruct (Rgt_dec v h) as [H1|H1];
    destruct (Rlt_dec v (- h)) as [H2|H2];
    destruct (Rle_dec h v) as [H3|H3];
    destruct (Rle_dec (- h) _) as [H4|H4]; lra.
Qed.

Lemma move_alpha (pc : t) (dx dy f : R) :
  alpha (fst (move dx dy f pc)) = rem (alpha pc + dx / f) (PI * 2).
Proof. reflexivity. Qed.

Lemma move_betaDelta (pc : t) (dx dy f : R) :
  betaDelta (snd (move dx dy f pc)) = (if isPanorama pc then 0 else dy) / f.
Proof. reflexivity. Qed.

Lemma move_beta (pc : t) (dx dy f : R) :
  beta (fst (move dx dy f pc))
  = clamp (rem (beta pc + betaDelta (snd (move dx dy f pc))) (PI * 2))
          (- (PI / 2)) (PI / 2).
Proof.
  rewrite <- limiter_is_clamp by (pose proof PI_RGT_0; lra).
  reflexivity.
Qed.


(** The yaw accumulator stays strictly within one turn of zero, on
    either side. *)
Lemma move_alpha_range (pc : t) (dx dy f : R) :
  - (PI * 2) < alpha (fst (move dx dy f pc)) < PI * 2.
Proof. rewrite move_alpha. apply rem_bounds, two_pi_pos. Qed.

(** It is non-negative when the sum it wraps is. *)
Lemma move_alpha_nonneg (pc : t) (dx dy f : R) :
  0 <= alpha pc + dx / f ->
  0 <= alpha (fst (move dx dy f pc)) < PI * 2.
Proof. intros H. rewrite move_alpha. apply rem_nonneg; [apply two_pi_pos|exact H]. Qed.




(** C1. The claim has the yaw accumulator in [[0, 2*PI)] after every
    move.  On a fresh instance with a mouse session started, a move by
    [deltaX = -1] with friction 400 leaves [alpha = -1/400]: the
    remainder keeps the sign of the sum and [move] does not add a turn
    to a negative result. *)
Theorem move_alpha_negative_after_left_drag :
  let pc :=
    snd (start_alone 0 0 false 0 0 "mouse" None
           (new_ 0%nat None false None None)) in
  fst (start_alone 0 0 false 0 0 "mouse" None (new_ 0%nat None false None None))
  = true
  /\ alpha (fst (move (-1) 0 400 pc)) = - (1 / 400)
  /\ ~ (0 <= alpha (fst (move (-1) 0 400 pc)) < 2 * PI).
Proof.
  cbv zeta. split; [reflexivity|].
  assert (alpha (fst (move (-1) 0 400
            (snd (start_alone 0 0 false 0 0 "mouse" None
                    (new_ 0%nat None false None None))))) = - (1 / 400)) as E.
  { rewrite move_alpha. simpl alpha.
    replace (0 + -1 / 400) with (- (1 / 400)) by lra.
    apply rem_small; [apply two_pi_pos|].
    pose proof PI_bounds. lra. }
  split; [exact E|]. rewrite E. lra.
Qed.

(** A drag of 50 pixels to the right at friction 400 is an eighth of a
    radian of yaw. *)
Example move_fifty_pixels :
  let pc :=
    snd (start_alone 0 0 false 100 100 "mouse" None
           (new_ 0%nat (Some 400) true (Some true) None)) in
  alphaDelta (snd (move 50 0 400 pc)) = 1 / 8
  /\ alpha (fst (move 50 0 400 pc)) = 1 / 8.
Proof.
  cbv zeta. split.
  - simpl. lra.
  - rewrite move_alpha. simpl alpha.
    replace (0 + 50 / 400) with (1 / 8) by lra.
    apply rem_small; [apply two_pi_pos|]. pose proof PI_bounds. lra.
Qed.

(** C3, as stated, fails: from [beta = 0], a move by [deltaY = 7] with
    friction 1 outside panorama mode leaves [beta = 7 - 2*PI], about
    0.717, where the clamp of the sum is [PI/2]. *)
Lemma move_beta_is_not_clamp_of_sum :
  let pc := new_ 0%nat None false None None in
  beta (fst (move 0 7 1 pc))
  <> clamp (beta pc + 7 / 1) (- (PI / 2)) (PI / 2).
Proof.
  cbv zeta. pose proof PI_bounds as Hpi.
  rewrite move_beta, move_betaDelta. simpl beta. simpl isPanorama. cbv iota.
  replace (0 + 7 / 1) with 7 by lra.
  rewrite rem_one_turn by (try split; lra).
  rewrite clamp_id by lra.
  unfold clamp, Rmax, Rmin.
  destruct (Rle_dec (PI / 2) 7) as [H1|H1]; [|lra].
  destruct (Rle_dec (- (PI / 2)) (PI / 2)) as [H2|H2]; lra.
Qed.

(** C3, amended.  A move sets the pitch accumulator to the clamp of the
    remainder, modulo a full turn, of the sum [beta + dBeta], where
    [dBeta] is the event's [betaDelta]; whenever the sum is less than a
    full turn in magnitude this is the clamp of the sum itself. *)
Theorem move_beta_clamps_wrapped_sum (pc : t) (dx dy f : R) :
  f <> 0 ->
  let dBeta := betaDelta (snd (move dx dy f pc)) in
  dBeta = (if isPanorama pc then 0 else dy) / f
  /\ beta (fst (move dx dy f pc))
     = clamp (rem (beta pc + dBeta) (PI * 2)) (- (PI / 2)) (PI / 2)
  /\ (- (PI * 2) < beta pc + dBeta < PI * 2 ->
      beta (fst (move dx dy f pc))
      = clamp (beta pc + dBeta) (- (PI / 2)) (PI / 2)).
Proof.
  intros _. cbv zeta. split; [apply move_betaDelta|].
  split; [apply move_beta|].
  intros Hsmall. rewrite move_beta.
  rewrite rem_small; [reflexivity|apply two_pi_pos|exact Hsmall].
Qed.

Lemma move_beta_clamps_wrapped_sum_witness :
  (400 : R) <> 0
  /\ beta (fst (move 0 1000 400 (new_ 0%nat None false None None)))
     = clamp (beta (new_ 0%nat None false None None)
              + betaDelta (snd (move 0 1000 400 (new_ 0%nat None false None None))))
             (- (PI / 2)) (PI / 2).
Proof.
  assert ((400 : R) <> 0) as Hf by lra.
  split; [exact Hf|].
  apply (move_beta_clamps_wrapped_sum (new_ 0%nat None false None None) 0 1000 400 Hf).
  rewrite move_betaDelta. simpl. pose proof PI_bounds. lra.
Defined.

(** C4. A [start] on an instance whose session marker is set returns
    [false] and leaves the instance, and everything around it, as it
    was: no listener runs, and the marker, the origin point and the
    accumulators are the ones the accepted start and the moves since
    left. *)
Theorem start_rejected_while_active
    {W : Type} (this : W -> t) (assign : t -> W -> W)
    (trigger_movestart : MovestartData -> W -> W * bool)
    (x0 y0 : R) (control : string) (event : option Handle) (w : W) :
  truthy (controlActive (this w)) = true ->
  start this assign trigger_movestart x0 y0 control event w = (false, w).
Proof.
  intros Hactive. unfold start. rewrite Hactive. reflexivity.
Qed.

Lemma start_rejected_while_active_witness :
  let pc0 := new_ 0%nat None false None None in
  let pc1 := snd (start_alone 0 0 false 10 20 "mouse" None pc0) in
  let pc2 := fst (move 5 3 800 pc1) in
  truthy (controlActive pc2) = true
  /\ start_alone 1 1 false 30 40 "touch" None pc2 = (false, pc2).
Proof.
  cbv zeta. split; [reflexivity|].
  unfold start_alone. apply start_rejected_while_active. reflexivity.
Defined.



End PositionFacts.

(** ** Dollying the field of view *)

Module ZoomFacts.
Import Constants ZoomControls.

Lemma same_settings_refl (zc : t) : same_settings zc zc.
Proof. repeat split. Qed.

Lemma same_settings_trans (a b c : t) :
  same_settings a b -> same_settings b c -> same_settings a c.
Proof.
  unfold same_settings. intros (H1 & H2 & H3 & H4) (K1 & K2 & K3 & K4).
  repeat split; congruence.
Qed.

Lemma dollyIn_settings (sc : option R) (zc : t) : same_settings zc (dollyIn sc zc).
Proof.
  unfold dollyIn.
  destruct (Three.isPerspectiveCamera (object zc)) eqn:Ep;
    [|destruct (Three.isOrthographicCamera (object zc))];
    repeat split; simpl; auto.
Qed.

Lemma dollyOut_settings (sc : option R) (zc : t) : same_settings zc (dollyOut sc zc).
Proof.
  unfold dollyOut.
  destruct (Three.isPerspectiveCamera (object zc)) eqn:Ep;
    [|destruct (Three.isOrthographicCamera (object zc))];
    repeat split; simpl; auto.
Qed.

Lemma iter_settings (op : t -> t) (n : nat) (zc : t) :
  (forall z, same_settings z (op z)) -> same_settings zc (Nat.iter n op zc).
Proof.
  intros Hop. induction n as [|n IH]; simpl.
  - apply same_settings_refl.
  - eapply same_settings_trans; [exact IH|apply Hop].
Qed.

(** With the constructor's zoom speed the default scale is 0.95. *)
Lemma default_scale (zc : t) : zoomSpeed zc = 1 -> getZoomScale zc = 95 / 100.
Proof.
  intros E. unfold getZoomScale. rewrite E. apply Rpower_1. lra.
Qed.

Section Perspective.

Variable zc : t.
Hypothesis Hpersp : Three.isPerspectiveCamera (object zc) = true.
Hypothesis Hspeed : zoomSpeed zc = 1.

Lemma fov_after_dollyIn_S (n : nat) :
  fov_after (dollyIn None) (S n) zc
  = Rmax (minFov zc)
         (Rmin (maxFov zc) (fov_after (dollyIn None) n zc * (95 / 100))).
Proof.
  unfold fov_after. simpl Nat.iter.
  destruct (iter_settings (dollyIn None) n zc (dollyIn_settings None))
    as (Hp & Hmin & Hmax & Hs).
  set (z := Nat.iter n (dollyIn None) zc) in *.
  unfold dollyIn. rewrite Hp, Hpersp. simpl.
  rewrite (default_scale z) by congruence.
  rewrite Hmin, Hmax. reflexivity.
Qed.

Lemma fov_after_dollyOut_S (n : nat) :
  fov_after (dollyOut None) (S n) zc
  = Rmax (minFov zc)
         (Rmin (maxFov zc) (fov_after (dollyOut None) n zc / (95 / 100))).
Proof.
  unfold fov_after. simpl Nat.iter.
  destruct (iter_settings (dollyOut None) n zc (dollyOut_settings None))
    as (Hp & Hmin & Hmax & Hs).
  set (z := Nat.iter n (dollyOut None) zc) in *.
  unfold dollyOut. rewrite Hp, Hpersp. simpl.
  rewrite (default_scale z) by congruence.
  rewrite Hmin, Hmax. reflexivity.
Qed.

(** Neither sequence leaves the interval between the bounds. *)
Lemma dollyIn_in_bounds (n : nat) :
  minFov zc <= Three.fov (object zc) <= maxFov zc ->
  minFov zc <= fov_after (dollyIn None) n zc <= maxFov zc.
Proof.
  intros Hstart. destruct n as [|n]; [exact Hstart|].
  rewrite fov_after_dollyIn_S. unfold Rmax, Rmin.
  destruct (Rle_dec (maxFov zc) _); destruct (Rle_dec (minFov zc) _); lra.
Qed.

Lemma dollyOut_in_bounds (n : nat) :
  minFov zc <= Three.fov (object zc) <= maxFov zc ->
  minFov zc <= fov_after (dollyOut None) n zc <= maxFov zc.
Proof.
  intros Hstart. destruct n as [|n]; [exact Hstart|].
  rewrite fov_after_dollyOut_S. unfold Rmax, Rmin.
  destruct (Rle_dec (maxFov zc) _); destruct (Rle_dec (minFov zc) _); lra.
Qed.

(** Dollying in shrinks the field of view geometrically until the lower
    bound takes over. *)
Lemma dollyIn_decay (n : nat) :
  0 <= minFov zc ->
  fov_after (dollyIn None) n zc
  <= Rmax (minFov zc) (Three.fov (object zc) * (95 / 100) ^ n).
Proof.
  intros Hmin. induction n as [|n IH].
  - unfold fov_after. simpl. unfold Rmax.
    destruct (Rle_dec (minFov zc) _); lra.
  - rewrite fov_after_dollyIn_S. simpl pow.
    set (p := Three.fov (object zc) * (95 / 100) ^ n) in *.
    replace (Three.fov (object zc) * (95 / 100 * (95 / 100) ^ n))
      with (p * (95 / 100)) by (unfold p; ring).
    revert IH. unfold Rmax, Rmin.
    destruct (Rle_dec (minFov zc) p);
      destruct (Rle_dec (maxFov zc) _);
      destruct (Rle_dec (minFov zc) _);
      destruct (Rle_dec (minFov zc) (p * (95 / 100))); lra.
Qed.

(** Dollying out grows it geometrically until the upper bound takes
    over. *)
Lemma dollyOut_growth (n : nat) :
  0 <= maxFov zc ->
  Rmin (maxFov zc) (Three.fov (object zc) * (100 / 95) ^ n)
  <= fov_after (dollyOut None) n zc.
Proof.
  intros Hmax. induction n as [|n IH].
  - unfold fov_after. simpl. unfold Rmin.
    destruct (Rle_dec (maxFov zc) _); lra.
  - rewrite fov_after_dollyOut_S. simpl pow.
    set (p := Three.fov (object zc) * (100 / 95) ^ n) in *.
    replace (Three.fov (object zc) * (100 / 95 * (100 / 95) ^ n))
      with (p * (100 / 95)) by (unfold p; ring).
    revert IH. unfold Rmax, Rmin.
    destruct (Rle_dec (maxFov zc) p);
      destruct (Rle_dec (maxFov zc) (fov_after (dollyOut None) n zc / (95 / 100)));
      destruct (Rle_dec (minFov zc) _);
      destruct (Rle_dec (maxFov zc) (p * (100 / 95))); lra.
Qed.

End Perspective.

Lemma pow_095_26 : 75 * (95 / 100) ^ 26 <= 20.
Proof. simpl. lra. Qed.

Lemma pow_inv095_26 : 75 <= 20 * (100 / 95) ^ 26.
Proof. simpl. lra. Qed.

Lemma pow_095_antitone (n : nat) : (26 <= n)%nat -> (95 / 100) ^ n <= (95 / 100) ^ 26.
Proof.
  intros Hn. replace n with (26 + (n - 26))%nat by lia.
  rewrite pow_add.
  assert (0 <= (95 / 100) ^ 26) as H0 by (apply pow_le; lra).
  assert ((95 / 100) ^ (n - 26) <= 1) as H1.
  { rewrite <- (pow1 (n - 26)). apply pow_incr. lra. }
  nra.
Qed.

Lemma pow_inv095_monotone (n : nat) : (26 <= n)%nat -> (100 / 95) ^ 26 <= (100 / 95) ^ n.
Proof. intros Hn. apply Rle_pow; [lra|exact Hn]. Qed.

Lemma new_settings (cam : Three.Camera) (isPanorama : bool) :
  minFov (new_ cam isPanorama) = 20
  /\ maxFov (new_ cam isPanorama) = (if isPanorama then 53 else 75)
  /\ zoomSpeed (new_ cam isPanorama) = 1
  /\ object (new_ cam isPanorama) = cam.
Proof. repeat split. Qed.

(** From any start within the bounds of a freshly built controller,
    twenty-six default dolly-ins reach the lower bound. *)
Lemma dollyIn_reaches_minFov (cam : Three.Camera) (isPanorama : bool) (n : nat) :
  Three.isPerspectiveCamera cam = true ->
  20 <= Three.fov cam <= (if isPanorama then 53 else 75) ->
  (26 <= n)%nat ->
  fov_after (dollyIn None) n (new_ cam isPanorama) = 20.
Proof.
  intros Hp Hstart Hn.
  set (zc := new_ cam isPanorama).
  assert (minFov zc <= Three.fov (object zc) <= maxFov zc) as Hs.
  { unfold zc. simpl. unfold FOV_PANORAMA, FOV_SPHERE. destruct isPanorama; lra. }
  assert (0 <= minFov zc) as Hm by (simpl; lra).
  pose proof (dollyIn_in_bounds zc Hp eq_refl n Hs) as [Hlo _].
  pose proof (dollyIn_decay zc Hp eq_refl n Hm) as Hup.
  pose proof (pow_095_antitone n Hn) as Hpow.
  pose proof pow_095_26 as H26.
  assert (0 <= (95 / 100) ^ n) as Hnn by (apply pow_le; lra).
  assert (Three.fov cam * (95 / 100) ^ n <= 20) as Hsmall.
  { assert (Three.fov cam <= 75) by (destruct isPanorama; lra). nra. }
  change (minFov zc) with 20 in *. change (Three.fov (object zc)) with (Three.fov cam) in *.
  rewrite Rmax_left in Hup by exact Hsmall. lra.
Qed.

(** And twenty-six default dolly-outs reach the upper one. *)
Lemma dollyOut_reaches_maxFov (cam : Three.Camera) (isPanorama : bool) (n : nat) :
  Three.isPerspectiveCamera cam = true ->
  20 <= Three.fov cam <= (if isPanorama then 53 else 75) ->
  (26 <= n)%nat ->
  fov_after (dollyOut None) n (new_ cam isPanorama)
  = (if isPanorama then 53 else 75).
Proof.
  intros Hp Hstart Hn.
  set (zc := new_ cam isPanorama).
  assert (maxFov zc = if isPanorama then 53 else 75) as HM by reflexivity.
  assert (minFov zc <= Three.fov (object zc) <= maxFov zc) as Hs.
  { rewrite HM. simpl. lra. }
  assert (0 <= minFov zc) as Hm by (simpl; lra).
  pose proof (dollyOut_in_bounds zc Hp eq_refl n Hs) as [_ Hhi].
  assert (0 <= maxFov zc) as HM0 by (rewrite HM; destruct isPanorama; lra).
  pose proof (dollyOut_growth zc Hp eq_refl n HM0) as Hlow.
  pose proof (pow_inv095_monotone n Hn) as Hpow.
  pose proof pow_inv095_26 as H26.
  assert (maxFov zc <= Three.fov (object zc) * (100 / 95) ^ n) as Hbig.
  { assert (maxFov zc <= 75) by (rewrite HM; destruct isPanorama; lra).
    change (Three.fov (object zc)) with (Three.fov cam). nra. }
  rewrite Rmin_left in Hlow by exact Hbig. rewrite HM in *. lra.
Qed.

Lemma eventually_constant_cv (u : nat -> R) (l : R) (N : nat) :
  (forall n, (N <= n)%nat -> u n = l) -> Un_cv u l.
Proof.
  intros H eps Heps. exists N. intros n Hn.
  rewrite (H n) by exact Hn. unfold Rdist. rewrite Rminus_diag, Rabs_R0. exact Heps.
Qed.

(** C2, as stated, fails: in sphere mode, starting from the camera's
    field of view of 75, the fields of view after repeated default
    dolly-ins do not converge to [maxFov = 75]. *)
Lemma dollyIn_does_not_converge_to_maxFov :
  let zc := new_ (Three.PerspectiveCamera 75 (16 / 9)) false in
  minFov zc <= Three.fov (object zc) <= maxFov zc
  /\ maxFov zc = 75
  /\ ~ Un_cv (fun n => fov_after (dollyIn None) n zc) (maxFov zc).
Proof.
  cbv zeta. split; [simpl; unfold FOV_SPHERE; lra|]. split; [reflexivity|].
  intros Hcv. destruct (Hcv 1 ltac:(lra)) as [N HN].
  specialize (HN (N + 26)%nat ltac:(lia)).
  rewrite dollyIn_reaches_minFov in HN;
    [|reflexivity|simpl; lra|lia].
  change (maxFov (new_ (Three.PerspectiveCamera 75 (16 / 9)) false)) with 75 in HN.
  unfold Rdist in HN. rewrite Rabs_left in HN by lra. lra.
Qed.

(** C2, amended.  On a perspective camera whose field of view starts
    within [[minFov, maxFov]], with [minFov = 20] and [maxFov] 75 in
    sphere mode and 53 in panorama mode: the fields of view after
    repeated default dolly-ins never exceed [maxFov] and converge to
    [minFov], which they reach within twenty-six calls; those after
    repeated default dolly-outs never go below [minFov] and converge to
    [maxFov]. *)
Theorem dolly_sequences_stay_in_bounds (cam : Three.Camera) (isPanorama : bool) :
  Three.isPerspectiveCamera cam = true ->
  let zc := new_ cam isPanorama in
  minFov zc <= Three.fov cam <= maxFov zc ->
  minFov zc = 20
  /\ maxFov zc = (if isPanorama then 53 else 75)
  /\ (forall n, 20 <= fov_after (dollyIn None) n zc <= maxFov zc)
  /\ (forall n, (26 <= n)%nat -> fov_after (dollyIn None) n zc = 20)
  /\ Un_cv (fun n => fov_after (dollyIn None) n zc) 20
  /\ (forall n, 20 <= fov_after (dollyOut None) n zc <= maxFov zc)
  /\ (forall n, (26 <= n)%nat -> fov_after (dollyOut None) n zc = maxFov zc)
  /\ Un_cv (fun n => fov_after (dollyOut None) n zc) (maxFov zc).
Proof.
  intros Hp zc Hstart.
  assert (20 <= Three.fov cam <= (if isPanorama then 53 else 75)) as Hs by exact Hstart.
  split; [reflexivity|]. split; [reflexivity|].
  split; [intros n; exact (dollyIn_in_bounds zc Hp eq_refl n Hstart)|].
  split; [intros n Hn; apply dollyIn_reaches_minFov; assumption|].
  split.
  { apply eventually_constant_cv with 26%nat.
    intros n Hn. apply dollyIn_reaches_minFov; assumption. }
  split; [intros n; exact (dollyOut_in_bounds zc Hp eq_refl n Hstart)|].
  split; [intros n Hn; apply dollyOut_reaches_maxFov; assumption|].
  apply eventually_constant_cv with 26%nat.
  intros n Hn. apply dollyOut_reaches_maxFov; assumption.
Qed.

Lemma dolly_sequences_stay_in_bounds_witness :
  let cam := Three.PerspectiveCamera 53 (16 / 9) in
  let zc := new_ cam true in
  Three.isPerspectiveCamera cam = true
  /\ minFov zc <= Three.fov cam <= maxFov zc
  /\ (forall n, 20 <= fov_after (dollyIn None) n zc <= maxFov zc)
  /\ Un_cv (fun n => fov_after (dollyIn None) n zc) 20.
Proof.
  cbv zeta.
  assert (minFov (new_ (Three.PerspectiveCamera 53 (16 / 9)) true)
          <= Three.fov (Three.PerspectiveCamera 53 (16 / 9))
          <= maxFov (new_ (Three.PerspectiveCamera 53 (16 / 9)) true)) as Hs.
  { simpl. unfold FOV_PANORAMA. lra. }
  split; [reflexivity|]. split; [exact Hs|].
  destruct (dolly_sequences_stay_in_bounds
              (Three.PerspectiveCamera 53 (16 / 9)) true eq_refl Hs)
    as (_ & _ & Hin & _ & Hcv & _).
  split; [exact Hin|exact Hcv].
Defined.

End ZoomFacts.

(** ** Arrays *)

Module ArrayFacts.
Import Js.

Lemma indexOf_lower {A : Type} (same : A -> bool) (l : list A) :
  (-1 <= indexOf same l)%Z.
Proof.
  induction l as [|a l IH]; simpl; [lia|].
  destruct (same a); [lia|].
  destruct (Z.ltb_spec (indexOf same l) 0); lia.
Qed.

(** A value no entry is identical to has index [-1]. *)
Lemma indexOf_absent {A : Type} (same : A -> bool) (l : list A) :
  (forall a, In a l -> same a = false) -> indexOf same l = (-1)%Z.
Proof.
  induction l as [|a l IH]; intros Habs; simpl; [reflexivity|].
  rewrite (Habs a) by (left; reflexivity).
  rewrite IH by (intros b Hb; apply Habs; right; exact Hb).
  reflexivity.
Qed.

(** A value some entry is identical to has the index of the first such
    entry. *)
Lemma indexOf_present {A : Type} (same : A -> bool) (l : list A) :
  (exists a, In a l /\ same a = true) ->
  (0 <= indexOf same l < Z.of_nat (List.length l))%Z.
Proof.
  induction l as [|a l IH]; intros (b & Hin & Hb); [destruct Hin|].
  simpl indexOf. destruct (same a) eqn:Ea.
  - simpl List.length. lia.
  - destruct Hin as [->|Hin]; [congruence|].
    specialize (IH (ex_intro _ b (conj Hin Hb))).
    destruct (Z.ltb_spec (indexOf same l) 0); simpl List.length; lia.
Qed.

(** [splice(-1, 1)] drops the last entry, and nothing from an empty
    array. *)
Lemma splice_minus_one {A : Type} (l : list A) :
  splice (-1) 1 l = removelast l.
Proof.
  unfold splice. cbv zeta.
  replace (-1 <? 0)%Z with true by reflexivity.
  destruct l as [|a l]; [reflexivity|].
  set (m := a :: l).
  assert (1 <= Z.of_nat (List.length m))%Z as Hlen by (unfold m; simpl List.length; lia).
  rewrite Z.max_l by lia.
  replace (Z.max 1 0) with 1%Z by reflexivity.
  rewrite Z.min_l by lia.
  replace (Z.of_nat (List.length m) + -1 + 1)%Z with (Z.of_nat (List.length m)) by lia.
  rewrite Nat2Z.id, skipn_all, app_nil_r.
  replace (Z.to_nat (Z.of_nat (List.length m) + -1)) with (pred (List.length m)) by lia.
  symmetry. apply removelast_firstn_len.
Qed.

Lemma removelast_shorter {A : Type} (l : list A) :
  l <> [] -> List.length (removelast l) = pred (List.length l).
Proof.
  intros Hne. destruct (exists_last Hne) as (l' & a & ->).
  rewrite removelast_last, length_app. simpl. lia.
Qed.

End ArrayFacts.

(** ** The coordinator *)

Module SceneFacts.
Import Js JsNum NumFacts ThreeSixty.




(** The camera's yaw, as the move listener writes it, is within
    [[0, 2*PI)]: the listener adds a turn to a negative remainder. *)
Lemma onCameraMove_yaw_range (event : PositionControls.MoveEvent) (s : t) :
  0 <= Three.rot_y (Three.rotation (camera (onCameraMove event s))) < PI * 2.
Proof.
  unfold onCameraMove. simpl.
  set (v := PositionControls.startY (cameraControls s)
            + PositionControls.ev_alpha event).
  assert (0 < PI * 2) as Hpos by (pose proof PI_RGT_0; lra).
  destruct (Rlt_dec (rem v (PI * 2)) 0) as [Hneg|Hnn].
  - pose proof (rem_bounds v (PI * 2) Hpos). lra.
  - pose proof (rem_bounds v (PI * 2) Hpos). lra.
Qed.

(** The constructor builds the camera with the field of view the move
    listener captures: 53 degrees for a panorama, 75 otherwise. *)
Lemma new_fieldOfView (dom : Handle) (options : Options) :
  fieldOfView (new_ dom options) = (if opt_isPanorama options then 53 else 75)
  /\ Three.fov (camera (new_ dom options)) = fieldOfView (new_ dom options).
Proof. split; reflexivity. Qed.






(** C6. [setElementPosition] puts the element at
    [(800 sin yaw cos pitch, 800 sin pitch, -800 cos yaw cos pitch)] with
    rotation order YXZ (yaw, then pitch, then roll), [rotation.y = -yaw]
    and [rotation.x = pitch]; yaw 0 and pitch 0 give [(0, 0, -800)], yaw
    [PI/2] and pitch 0 give [(800, 0, 0)]. *)
Theorem setElementPosition_on_sphere (el : ThreeElement) (yaw0 pitch0 : R) :
  position (setElementPosition el (mkPosition yaw0 pitch0))
  = Three.mkVector3 (800 * sin yaw0 * cos pitch0)
                    (800 * sin pitch0)
                    (-800 * cos yaw0 * cos pitch0)
  /\ Three.order (el_rotation (setElementPosition el (mkPosition yaw0 pitch0)))
     = "YXZ"%string
  /\ Three.rot_y (el_rotation (setElementPosition el (mkPosition yaw0 pitch0)))
     = - yaw0
  /\ Three.rot_x (el_rotation (setElementPosition el (mkPosition yaw0 pitch0)))
     = pitch0
  /\ position (setElementPosition el (mkPosition 0 0))
     = Three.mkVector3 0 0 (-800)
  /\ position (setElementPosition el (mkPosition (PI / 2) 0))
     = Three.mkVector3 800 0 0.
Proof.
  split; [reflexivity|]. split; [reflexivity|]. split; [reflexivity|].
  split; [reflexivity|]. split.
  - unfold setElementPosition. simpl. rewrite sin_0, cos_0.
    apply f_equal3; ring.
  - unfold setElementPosition. simpl. rewrite sin_PI2, cos_PI2, sin_0, cos_0.
    apply f_equal3; ring.
Qed.

(** C8. While the suspension flag is set, [setCameraPosition] changes
    nothing: the camera, every other field and the list of triggered
    events stay as they are. *)
Theorem setCameraPosition_suspended (yaw0 pitch0 : R) (s : t) :
  truthy (preventDeviceOrientation s) = true ->
  setCameraPosition yaw0 pitch0 s = s.
Proof.
  intros Hflag. unfold setCameraPosition. rewrite Hflag. reflexivity.
Qed.

Lemma setCameraPosition_suspended_witness :
  let s :=
    snd (cameraControls_start (fun _ => false) 100 100 "mouse" None
           (new_ 0%nat (mkOptions None None false))) in
  truthy (preventDeviceOrientation s) = true
  /\ setCameraPosition 1 (1 / 2) s = s.
Proof.
  cbv zeta. split; [reflexivity|].
  apply setCameraPosition_suspended. reflexivity.
Defined.

(** The flag is set by an accepted start of a camera drag and stays set
    through the moves of the drag. *)
Lemma cameraControls_start_suspends
    (host_prevents : PositionControls.MovestartData -> bool)
    (x0 y0 : R) (control : string) (event : option Handle) (s : t) :
  fst (cameraControls_start host_prevents x0 y0 control event s) = true ->
  truthy (preventDeviceOrientation
            (snd (cameraControls_start host_prevents x0 y0 control event s)))
  = true.
Proof.
  unfold cameraControls_start, PositionControls.start.
  destruct (truthy (PositionControls.controlActive (cameraControls s)));
    [discriminate|].
  simpl. destruct (host_prevents _); [discriminate|]. reflexivity.
Qed.

Lemma cameraControls_move_keeps_flag (dx dy f : R) (s : t) :
  preventDeviceOrientation (cameraControls_move dx dy f s)
  = preventDeviceOrientation s.
Proof. reflexivity. Qed.

(** C9. Removing an object the collection does not hold removes the
    collection's last element; the collection is left as it was only
    when it is empty. *)
Theorem remove_absent_drops_last (h : ThreeElement) (s : t) :
  (forall e, In e (threeElements s) -> oid e <> oid h) ->
  threeElements (remove h s) = removelast (threeElements s)
  /\ (threeElements s <> [] ->
      List.length (threeElements (remove h s))
      = pred (List.length (threeElements s)))
  /\ (threeElements (remove h s) = threeElements s <-> threeElements s = []).
Proof.
  intros Habsent.
  assert (threeElements (remove h s) = removelast (threeElements s)) as E.
  { unfold remove. simpl.
    rewrite ArrayFacts.indexOf_absent.
    - apply ArrayFacts.splice_minus_one.
    - intros e He. apply Nat.eqb_neq, Habsent, He. }
  split; [exact E|]. split.
  - intros Hne. rewrite E. apply ArrayFacts.removelast_shorter, Hne.
  - rewrite E. split.
    + intros Hsame. destruct (threeElements s) as [|a l] eqn:El; [reflexivity|].
      exfalso.
      assert (List.length (removelast (a :: l)) = pred (List.length (a :: l))) as Hl
        by (apply ArrayFacts.removelast_shorter; discriminate).
      rewrite Hsame in Hl. simpl in Hl. lia.
    + intros ->. reflexivity.
Qed.

Lemma remove_absent_drops_last_witness :
  let e1 := mkThreeElement 1%nat 11%nat false (Three.mkVector3 0 0 0) (Three.mkEuler 0 0 0 "XYZ") in
  let e2 := mkThreeElement 2%nat 12%nat false (Three.mkVector3 0 0 0) (Three.mkEuler 0 0 0 "XYZ") in
  let e3 := mkThreeElement 3%nat 13%nat true (Three.mkVector3 0 0 0) (Three.mkEuler 0 0 0 "XYZ") in
  let h := mkThreeElement 7%nat 17%nat false (Three.mkVector3 0 0 0) (Three.mkEuler 0 0 0 "XYZ") in
  let s := with_threeElements [e1; e2; e3] (new_ 0%nat (mkOptions None None false)) in
  (forall e, In e (threeElements s) -> oid e <> oid h)
  /\ threeElements (remove h s) = [e1; e2].
Proof.
  cbv zeta.
  assert (forall e,
            In e (threeElements
                    (with_threeElements
                       [mkThreeElement 1%nat 11%nat false (Three.mkVector3 0 0 0) (Three.mkEuler 0 0 0 "XYZ");
                        mkThreeElement 2%nat 12%nat false (Three.mkVector3 0 0 0) (Three.mkEuler 0 0 0 "XYZ");
                        mkThreeElement 3%nat 13%nat true (Three.mkVector3 0 0 0) (Three.mkEuler 0 0 0 "XYZ")]
                       (new_ 0%nat (mkOptions None None false)))) ->
            oid e
            <> oid (mkThreeElement 7%nat 17%nat false (Three.mkVector3 0 0 0) (Three.mkEuler 0 0 0 "XYZ")))
    as Habsent.
  { simpl. intros e [<-|[<-|[<-|[]]]]; simpl; lia. }
  split; [exact Habsent|].
  exact (proj1 (remove_absent_drops_last _ _ Habsent)).
Defined.

(** With the suspension flag clear, [getCurrentPosition] after
    [setCameraPosition yaw pitch] gives back [yaw] and [pitch] when the
    coordinator's [isPanorama] field is falsy, and [yaw] and a pitch of
    0 when it is truthy. *)
Lemma getCurrentPosition_after_set (yaw0 pitch0 : R) (s : t) :
  truthy (preventDeviceOrientation s) = false ->
  (truthy (isPanorama s) = false ->
   getCurrentPosition (setCameraPosition yaw0 pitch0 s)
   = mkPosition yaw0 pitch0)
  /\ (truthy (isPanorama s) = true ->
      getCurrentPosition (setCameraPosition yaw0 pitch0 s)
      = mkPosition yaw0 0).
Proof.
  intros Hflag. unfold setCameraPosition, getCurrentPosition. rewrite Hflag.
  split; intros Hpano; rewrite Hpano; simpl; rewrite Ropp_involutive; reflexivity.
Qed.

(** C10.  The claim has the returned pitch 0 in panorama mode.  A
    coordinator constructed with [isPanorama: true] is in panorama mode
    by its camera, whose field of view is 53, and by its camera
    controls, which suppress vertical drags; but the constructor does
    not assign the field [setCameraPosition] tests, so with the
    suspension flag clear [getCurrentPosition] after
    [setCameraPosition yaw pitch] returns the pitch as given, whatever
    it is.  Only [setSourceElement] assigns that field. *)
Theorem setCameraPosition_keeps_pitch_in_constructed_panorama
    (dom : Handle) (ratio0 : option R)
    (startPosition : option (option R * option R)) (yaw0 pitch0 : R) :
  let s := new_ dom (mkOptions ratio0 startPosition true) in
  Three.fov (camera s) = 53
  /\ PositionControls.isPanorama (cameraControls s) = true
  /\ truthy (preventDeviceOrientation s) = false
  /\ isPanorama s = JUndefined
  /\ getCurrentPosition (setCameraPosition yaw0 pitch0 s)
     = mkPosition yaw0 pitch0
  /\ getCurrentPosition
       (setCameraPosition yaw0 pitch0 (setSourceElement (JBool true) s))
     = mkPosition yaw0 0.
Proof.
  cbv zeta.
  split; [reflexivity|]. split; [reflexivity|]. split; [reflexivity|].
  split; [reflexivity|]. split.
  - exact (proj1 (getCurrentPosition_after_set yaw0 pitch0
                    (new_ dom (mkOptions ratio0 startPosition true)) eq_refl)
             eq_refl).
  - exact (proj2 (getCurrentPosition_after_set yaw0 pitch0
                    (setSourceElement (JBool true)
                       (new_ dom (mkOptions ratio0 startPosition true))) eq_refl)
             eq_refl).
Qed.

End SceneFacts.

(** ** The input listeners *)

Module InputFacts.
Import Js PositionInput.

Lemma with_controls_same (st : t) : with_controls (controls st) st = st.
Proof. destruct st; reflexivity. Qed.

(** A start on an idle controller goes by the owner's verdict; on an
    active one it is refused untouched. *)
Lemma start_cases (owner : PositionControls.MovestartData -> R * R * bool)
    (x0 y0 : R) (control : string) (event : option Handle)
    (pc : PositionControls.t) :
  (truthy (PositionControls.controlActive pc) = true
   /\ start owner x0 y0 control event pc = (false, pc))
  \/ (truthy (PositionControls.controlActive pc) = false
      /\ exists sx sy,
          start owner x0 y0 control event pc
          = (false, PositionControls.set_start_rotation sx sy pc)
          \/ start owner x0 y0 control event pc
             = (true,
                PositionControls.set_session
                  (Some (PositionControls.mkPoint x0 y0)) 0 0 (JStr control)
                  (PositionControls.set_start_rotation sx sy pc))).
Proof.
  unfold start, PositionControls.start, listener, PositionControls.own_listener.
  destruct (truthy (PositionControls.controlActive pc)) eqn:Ea.
  - left. split; reflexivity.
  - right. split; [reflexivity|].
    destruct (owner _) as [[sx sy] veto]. exists sx, sy.
    destruct veto; [left|right]; reflexivity.
Qed.

Lemma moved_listeners (dx dy f : R) (st : t) :
  exists a b,
    fst (moved dx dy f st)
    = with_controls (PositionControls.set_alpha_beta a b (controls st)) st.
Proof. unfold moved. simpl. eauto. Qed.

Lemma moved_emits (dx dy f : R) (st : t) :
  snd (moved dx dy f st)
  = [EmMove (snd (PositionControls.move dx dy f (controls st)))].
Proof. reflexivity. Qed.

Ltac unfold_states :=
  unfold consistent, idle, in_mouse, in_touch, in_keyboard in *.

Lemma consistent_set_alpha_beta (a b : R) (st : t) :
  (idle st -> idle (with_controls (PositionControls.set_alpha_beta a b (controls st)) st))
  /\ (in_mouse st -> in_mouse (with_controls (PositionControls.set_alpha_beta a b (controls st)) st))
  /\ (in_touch st -> in_touch (with_controls (PositionControls.set_alpha_beta a b (controls st)) st))
  /\ (in_keyboard st -> in_keyboard (with_controls (PositionControls.set_alpha_beta a b (controls st)) st)).
Proof.
  unfold_states. destruct st as [pc m tl kl]. simpl. tauto.
Qed.

Lemma consistent_moved (dx dy f : R) (st : t) :
  (idle st -> idle (fst (moved dx dy f st)))
  /\ (in_mouse st -> in_mouse (fst (moved dx dy f st)))
  /\ (in_touch st -> in_touch (fst (moved dx dy f st)))
  /\ (in_keyboard st -> in_keyboard (fst (moved dx dy f st))).
Proof.
  destruct (moved_listeners dx dy f st) as (a & b & ->).
  apply consistent_set_alpha_beta.
Qed.

Lemma consistent_start_rotation (sx sy : R) (st : t) :
  idle st ->
  idle (with_controls (PositionControls.set_start_rotation sx sy (controls st)) st).
Proof.
  unfold_states. destruct st as [pc m tl kl]. simpl. tauto.
Qed.

Lemma active_not_idle (st : t) :
  in_mouse st \/ in_touch st \/ in_keyboard st ->
  truthy (PositionControls.controlActive (controls st)) = true.
Proof.
  unfold_states. intros [H|[H|H]]; destruct H as (-> & _); reflexivity.
Qed.

Lemma idle_inactive (st : t) :
  idle st -> truthy (PositionControls.controlActive (controls st)) = false.
Proof. unfold idle. tauto. Qed.

Lemma handleMouseDown_consistent owner which pageX pageY target (st : t) :
  consistent st -> consistent (handleMouseDown owner which pageX pageY target st).
Proof.
  intros Hc. unfold handleMouseDown.
  destruct (which =? 1)%Z; cbn [negb]; [|exact Hc].
  destruct (start_cases owner pageX pageY "mouse" (Some target) (controls st))
    as [[Ha ->]|[Ha (sx & sy & [->| ->])]]; cbn [negb].
  - rewrite with_controls_same. exact Hc.
  - destruct Hc as [Hi|Hs];
      [|rewrite (active_not_idle st Hs) in Ha; discriminate].
    left. apply consistent_start_rotation, Hi.
  - destruct Hc as [Hi|Hs];
      [|rewrite (active_not_idle st Hs) in Ha; discriminate].
    right. left. unfold_states. destruct st as [pc m tl kl]. simpl in *.
    intuition discriminate.
Qed.

Lemma handleTouchStart_consistent owner pageX pageY (st : t) :
  consistent st -> consistent (handleTouchStart owner pageX pageY st).
Proof.
  intros Hc. unfold handleTouchStart.
  destruct (start_cases owner pageX pageY "touch" None (controls st))
    as [[Ha ->]|[Ha (sx & sy & [->| ->])]]; cbn [negb].
  - rewrite with_controls_same. exact Hc.
  - destruct Hc as [Hi|Hs];
      [|rewrite (active_not_idle st Hs) in Ha; discriminate].
    left. apply consistent_start_rotation, Hi.
  - destruct Hc as [Hi|Hs];
      [|rewrite (active_not_idle st Hs) in Ha; discriminate].
    right. right. left. unfold_states. destruct st as [pc m tl kl]. simpl in *.
    intuition discriminate.
Qed.

Lemma consistent_fst_moved (dx dy f : R) (st : t) :
  consistent st -> consistent (fst (moved dx dy f st)).
Proof.
  destruct (consistent_moved dx dy f st) as (H1 & H2 & H3 & H4).
  unfold consistent. tauto.
Qed.

Ltac reduce_key :=
  cbn [controls with_controls PositionControls.keyStillDown
       PositionControls.set_start_rotation PositionControls.set_session
       set_keyStillDown fst snd negb].

Lemma handleKeyDown_consistent owner which (st : t) :
  consistent st -> consistent (fst (handleKeyDown owner which st)).
Proof.
  intros Hc. unfold handleKeyDown.
  destruct (existsb (Z.eqb which) _); cbn [negb fst]; [|exact Hc].
  destruct (PositionControls.keyStillDown (controls st)) as [k|] eqn:Ek.
  - rewrite Ek. destruct (k =? which)%Z; cbn [negb fst]; [|exact Hc].
    destruct (if ((which =? 37) || (which =? 100))%Z then _ else _) as [dx dy].
    apply consistent_fst_moved, Hc.
  - destruct (start_cases owner 0 0 "keyboard" None (controls st))
      as [[Ha ->]|[Ha (sx & sy & [->| ->])]]; reduce_key.
    + rewrite Ek. rewrite with_controls_same. exact Hc.
    + rewrite Ek. cbn [fst].
      destruct Hc as [Hi|Hs];
        [|rewrite (active_not_idle st Hs) in Ha; discriminate].
      left. apply consistent_start_rotation, Hi.
    + rewrite Z.eqb_refl. cbn [negb].
      destruct (if ((which =? 37) || (which =? 100))%Z then _ else _) as [dx dy].
      apply consistent_fst_moved.
      destruct Hc as [Hi|Hs];
        [|rewrite (active_not_idle st Hs) in Ha; discriminate].
      right. right. right. unfold_states. destruct st as [pc m tl kl].
      simpl in *. intuition discriminate.
Qed.

Lemma listening_mouse (st : t) :
  consistent st -> mouseListening st = true -> in_mouse st.
Proof.
  unfold_states. intros [H|[H|[H|H]]] Hm; [| exact H | |];
    destruct H as (_ & Hx & _); congruence.
Qed.

Lemma listening_touch (st : t) :
  consistent st -> touchListening st = true -> in_touch st.
Proof.
  unfold_states. intros [H|[H|[H|H]]] Hm; [| | exact H |];
    destruct H as (_ & _ & Hx & _); congruence.
Qed.

Lemma listening_keyup (st : t) :
  consistent st -> keyupListening st = true -> in_keyboard st.
Proof.
  unfold_states. intros [H|[H|[H|H]]] Hm; [| | | exact H];
    destruct H as (_ & _ & _ & Hx & _); congruence.
Qed.

Lemma origin_of_session (pc : PositionControls.t) :
  PositionControls.startPosition pc <> None -> exists o, origin pc = Some o.
Proof.
  unfold origin. intros Hs.
  destruct (PositionControls.prevPosition pc) as [p|]; [eauto|].
  destruct (PositionControls.startPosition pc) as [p|]; [eauto|congruence].
Qed.

Lemma in_mouse_set_prev (p : option PositionControls.Point) (st : t) :
  in_mouse st -> in_mouse (with_controls (set_prevPosition p (controls st)) st).
Proof. unfold_states. destruct st as [pc m tl kl]. simpl. tauto. Qed.

Lemma in_touch_set_prev (p : option PositionControls.Point) (st : t) :
  in_touch st -> in_touch (with_controls (set_prevPosition p (controls st)) st).
Proof. unfold_states. destruct st as [pc m tl kl]. simpl. tauto. Qed.

Lemma handleMouseMove_in_mouse mx my pageX pageY (st : t) :
  in_mouse st ->
  exists st' out,
    handleMouseMove mx my pageX pageY st = Some (st', out) /\ in_mouse st'.
Proof.
  intros Hm. unfold handleMouseMove.
  assert (forall dx dy st1, in_mouse st1 ->
            exists st' out,
              (if Req_dec_T dx 0
               then if Req_dec_T dy 0 then Some (st1, [])
                    else Some (moved dx dy (PositionControls.friction (controls st1)) st1)
               else Some (moved dx dy (PositionControls.friction (controls st1)) st1))
              = Some (st', out) /\ in_mouse st') as Hstep.
  { intros dx dy st1 H1.
    destruct (consistent_moved dx dy (PositionControls.friction (controls st1)) st1)
      as (_ & Hk & _).
    destruct (moved dx dy (PositionControls.friction (controls st1)) st1)
      as [st2 out2] eqn:Em. simpl in Hk.
    destruct (Req_dec_T dx 0); [destruct (Req_dec_T dy 0)|]; eauto. }
  destruct (origin_of_session (controls st)) as [o Eo];
    [destruct Hm as (_ & _ & _ & _ & _ & Hs); exact Hs|].
  rewrite Eo.
  destruct mx as [xDiff|]; [destruct my as [yDiff|]|];
    apply Hstep; try exact Hm; apply in_mouse_set_prev, Hm.
Qed.

Lemma handleTouchMove_in_touch cancelable pageX pageY (st : t) :
  in_touch st ->
  exists st' out,
    handleTouchMove cancelable pageX pageY st = Some (st', out) /\ in_touch st'.
Proof.
  intros Hm. unfold handleTouchMove.
  destruct cancelable; cbn [negb]; [|eauto].
  destruct (origin_of_session (controls st)) as [o Eo];
    [destruct Hm as (_ & _ & _ & _ & _ & Hs); exact Hs|].
  rewrite Eo.
  match goal with
  | |- exists _ _, Some (moved ?dx ?dy ?f ?s1) = _ /\ _ =>
      destruct (consistent_moved dx dy f s1) as (_ & _ & Hk & _);
      destruct (moved dx dy f s1) as [st2 out2] eqn:Em
  end.
  simpl in Hk. exists st2, out2. split; [reflexivity|].
  apply Hk, in_touch_set_prev, Hm.
Qed.

Lemma handleMouseUp_idle (st : t) : in_mouse st -> idle (fst (handleMouseUp st)).
Proof. unfold_states. destruct st as [pc m tl kl]. simpl. tauto. Qed.

Lemma handleTouchEnd_idle (st : t) : in_touch st -> idle (fst (handleTouchEnd st)).
Proof. unfold_states. destruct st as [pc m tl kl]. simpl. tauto. Qed.

Lemma handleKeyUp_idle (st : t) : in_keyboard st -> idle (fst (handleKeyUp st)).
Proof. unfold_states. destruct st as [pc m tl kl]. simpl. tauto. Qed.

(** Every event finds its listeners able to run and leaves the
    controller consistent again. *)
Lemma dispatch_consistent owner (e : DomEvent) (st : t) :
  consistent st ->
  exists st' out, dispatch owner e st = Some (st', out) /\ consistent st'.
Proof.
  intros Hc. destruct e as [w px py tg|mx my px py| |px py|c px py| |w|]; simpl.
  - eexists _, _. split; [reflexivity|]. apply handleMouseDown_consistent, Hc.
  - destruct (mouseListening st) eqn:El; [|eauto].
    destruct (handleMouseMove_in_mouse mx my px py st (listening_mouse st Hc El))
      as (st' & out & E & H').
    exists st', out. split; [exact E|]. right. left. exact H'.
  - destruct (mouseListening st) eqn:El; [|eauto].
    eexists _, _. split; [reflexivity|]. left.
    apply handleMouseUp_idle, listening_mouse; assumption.
  - eexists _, _. split; [reflexivity|]. apply handleTouchStart_consistent, Hc.
  - destruct (touchListening st) eqn:El; [|eauto].
    destruct (handleTouchMove_in_touch c px py st (listening_touch st Hc El))
      as (st' & out & E & H').
    exists st', out. split; [exact E|]. right. right. left. exact H'.
  - destruct (touchListening st) eqn:El; [|eauto].
    eexists _, _. split; [reflexivity|]. left.
    apply handleTouchEnd_idle, listening_touch; assumption.
  - destruct (handleKeyDown owner w st) as [st' out] eqn:E.
    exists st', out. split; [reflexivity|].
    change st' with (fst (st', out)). rewrite <- E.
    apply handleKeyDown_consistent, Hc.
  - destruct (keyupListening st) eqn:El; [|eauto].
    eexists _, _. split; [reflexivity|]. left.
    apply handleKeyUp_idle, listening_keyup; assumption.
Qed.

Lemma run_consistent owner (es : list DomEvent) (st : t) :
  consistent st ->
  exists st' out, run owner es st = Some (st', out) /\ consistent st'.
Proof.
  revert st. induction es as [|e es IH]; intros st Hc; simpl.
  - eauto.
  - destruct (dispatch_consistent owner e st Hc) as (st1 & out1 & -> & H1).
    destruct (IH st1 H1) as (st2 & out2 & -> & H2).
    eauto.
Qed.

Lemma new_idle el fr inv cam pano : idle (new_ el fr inv cam pano).
Proof. unfold idle. simpl. tauto. Qed.

Lemma last_default_irrelevant {A : Type} (a : A) (l : list A) (d d' : A) :
  last (a :: l) d = last (a :: l) d'.
Proof.
  revert a. induction l as [|b l IH]; intros a; [reflexivity|].
  change (last (b :: l) d = last (b :: l) d'). apply IH.
Qed.

Lemma sum_alphaDelta_app (a b : list Emitted) :
  sum_alphaDelta (a ++ b) = sum_alphaDelta a + sum_alphaDelta b.
Proof.
  induction a as [|[e|] a IH]; simpl; rewrite ?IH; ring.
Qed.

Lemma sum_betaDelta_app (a b : list Emitted) :
  sum_betaDelta (a ++ b) = sum_betaDelta a + sum_betaDelta b.
Proof.
  induction a as [|[e|] a IH]; simpl; rewrite ?IH; ring.
Qed.

(** One pointer step: the state keeps its listeners, friction and
    panorama flag, remembers the new position, and what it triggers sums
    to the step's delta over the friction. *)
Lemma pointer_step (dx dy f : R) (p : PositionControls.Point) (st : t)
    (r : t * list Emitted) :
  r = moved dx dy f
        (with_controls (set_prevPosition (Some p) (controls st)) st)
  \/ (dx = 0 /\ dy = 0
      /\ r = (with_controls (set_prevPosition (Some p) (controls st)) st, [])) ->
  mouseListening (fst r) = mouseListening st
  /\ touchListening (fst r) = touchListening st
  /\ PositionControls.friction (controls (fst r)) = PositionControls.friction (controls st)
  /\ PositionControls.isPanorama (controls (fst r)) = PositionControls.isPanorama (controls st)
  /\ origin (controls (fst r)) = Some p
  /\ sum_alphaDelta (snd r) = dx / f
  /\ sum_betaDelta (snd r)
     = (if PositionControls.isPanorama (controls st) then 0 else dy) / f.
Proof.
  intros [->|(-> & -> & ->)].
  - destruct st as [pc m tl kl]. unfold moved, origin. simpl.
    repeat split; ring.
  - destruct st as [pc m tl kl]. unfold origin. simpl.
    repeat split; destruct (PositionControls.isPanorama pc); unfold Rdiv; ring.
Qed.

(** X2. Where the browser gives no [movementX]/[movementY], the mouse
    listener takes each delta from the position of the previous event,
    the first from the session's start position, so over any run of
    mouse moves the triggered yaw deltas add up to the horizontal
    distance from the origin to the last position, over the friction;
    the pitch deltas likewise, or to 0 in panorama mode. *)
Theorem mouse_fallback_deltas_telescope
    (owner : PositionControls.MovestartData -> R * R * bool)
    (ps : list (R * R)) (st : t) (o : PositionControls.Point) :
  mouseListening st = true ->
  origin (controls st) = Some o ->
  PositionControls.friction (controls st) <> 0 ->
  exists st' out,
    run owner (map (fun p => MouseMove None None (fst p) (snd p)) ps) st
    = Some (st', out)
    /\ sum_alphaDelta out
       = (fst (last ps (PositionControls.x o, PositionControls.y o))
          - PositionControls.x o)
         / PositionControls.friction (controls st)
    /\ sum_betaDelta out
       = (if PositionControls.isPanorama (controls st) then 0
          else snd (last ps (PositionControls.x o, PositionControls.y o))
               - PositionControls.y o)
         / PositionControls.friction (controls st)
    /\ origin (controls st')
       = Some (PositionControls.mkPoint
                 (fst (last ps (PositionControls.x o, PositionControls.y o)))
                 (snd (last ps (PositionControls.x o, PositionControls.y o)))).
Proof.
  intros Hm Ho _. revert st o Hm Ho.
  induction ps as [|[px py] ps IH]; intros st o Hm Ho.
  - simpl. exists st, []. split; [reflexivity|]. simpl.
    destruct o as [ox oy]. simpl.
    split; [unfold Rdiv; ring|].
    split; [destruct (PositionControls.isPanorama _); unfold Rdiv; ring|].
    exact Ho.
  - cbn [map run dispatch fst snd]. rewrite Hm.
    unfold handleMouseMove. rewrite Ho.
    set (p := PositionControls.mkPoint px py).
    set (st1 := with_controls (set_prevPosition (Some p) (controls st)) st).
    set (dx := px - PositionControls.x o). set (dy := py - PositionControls.y o).
    set (f := PositionControls.friction (controls st1)).
    assert (exists r,
              (if Req_dec_T dx 0
               then if Req_dec_T dy 0 then Some (st1, []) else Some (moved dx dy f st1)
               else Some (moved dx dy f st1)) = Some r
              /\ (r = moved dx dy f st1 \/ (dx = 0 /\ dy = 0 /\ r = (st1, []))))
      as (r & -> & Hr).
    { destruct (Req_dec_T dx 0) as [Ex|Ex]; [destruct (Req_dec_T dy 0) as [Ey|Ey]|];
        eexists; split; try reflexivity; auto. }
    destruct (pointer_step dx dy f p st r Hr)
      as (Hm' & _ & Hf & Hp & Ho' & Ha & Hb).
    destruct r as [st2 out2]. cbn [fst snd] in *.
    destruct (IH st2 p (eq_trans Hm' Hm) Ho') as (st3 & out3 & -> & Ha3 & Hb3 & Ho3).
    exists st3, (out2 ++ out3). split; [reflexivity|].
    assert (last ((px, py) :: ps) (PositionControls.x o, PositionControls.y o)
            = last ps (PositionControls.x p, PositionControls.y p)) as El.
    { simpl. destruct ps as [|q ps']; [reflexivity|]. apply last_default_irrelevant. }
    rewrite El, sum_alphaDelta_app, sum_betaDelta_app, Ha, Hb, Ha3, Hb3, Hf, Hp.
    split; [|split; [|exact Ho3]].
    + unfold dx, f, st1, p. simpl. unfold Rdiv. ring.
    + unfold dy, f, st1, p. simpl.
      destruct (PositionControls.isPanorama (controls st)); unfold Rdiv; ring.
Qed.

Lemma mouse_fallback_deltas_telescope_witness :
  let owner := fun _ : PositionControls.MovestartData => (0, 0, false) in
  let st := handleMouseDown owner 1 100 100 0%nat (new_ 0%nat None false None None) in
  mouseListening st = true
  /\ origin (controls st) = Some (PositionControls.mkPoint 100 100)
  /\ PositionControls.friction (controls st) <> 0
  /\ exists st' out,
       run owner [MouseMove None None 130 100; MouseMove None None 150 120] st
       = Some (st', out)
       /\ sum_alphaDelta out = 50 / 800
       /\ sum_betaDelta out = 20 / 800.
Proof.
  cbv zeta.
  set (owner := fun _ : PositionControls.MovestartData => (0, 0, false)).
  set (st := handleMouseDown owner 1 100 100 0%nat (new_ 0%nat None false None None)).
  assert (PositionControls.friction (controls st) <> 0) as Hf by (simpl; lra).
  split; [reflexivity|]. split; [reflexivity|]. split; [exact Hf|].
  destruct (mouse_fallback_deltas_telescope owner [(130, 100); (150, 120)] st
              (PositionControls.mkPoint 100 100) eq_refl eq_refl Hf)
    as (st' & out & E & Ha & Hb & _).
  exists st', out. split; [exact E|].
  rewrite Ha, Hb. simpl. split; lra.
Defined.

(** The page positions of the touch moves a listener acts on: the
    cancelable ones. *)
Lemma touch_step (c : bool) (px py : R) (st : t) (o : PositionControls.Point) :
  touchListening st = true ->
  origin (controls st) = Some o ->
  exists st' out,
    dispatch (fun _ => (0, 0, false)) (TouchMove c px py) st = Some (st', out)
    /\ touchListening st' = true
    /\ PositionControls.friction (controls st') = PositionControls.friction (controls st)
    /\ PositionControls.isPanorama (controls st') = PositionControls.isPanorama (controls st)
    /\ origin (controls st')
       = Some (if c then PositionControls.mkPoint px py else o)
    /\ sum_alphaDelta out
       = (if c then px - PositionControls.x o else 0)
         / (PositionControls.friction (controls st) * (75 / 100))
    /\ sum_betaDelta out
       = (if c then
            if PositionControls.isPanorama (controls st) then 0
            else py - PositionControls.y o
          else 0)
         / (PositionControls.friction (controls st) * (75 / 100)).
Proof.
  intros Ht Ho. cbn [dispatch]. rewrite Ht. unfold handleTouchMove.
  destruct c; cbn [negb].
  - rewrite Ho. eexists _, _. split; [reflexivity|].
    destruct st as [pc m tl kl]. unfold moved, origin. simpl in *.
    repeat split; try assumption; ring.
  - exists st, []. split; [reflexivity|]. simpl.
    repeat split; try assumption; unfold Rdiv; ring.
Qed.

(** X3. A touch listener ignores moves that are not cancelable and takes
    each other delta from the previous cancelable position, the first
    from the start position, at three quarters of the friction: over any
    run of touch moves the yaw deltas add up to the horizontal distance
    from the origin to the last cancelable position over
    [0.75 * friction]; the pitch deltas likewise, or to 0 in panorama
    mode. *)
Theorem touch_deltas_telescope
    (owner : PositionControls.MovestartData -> R * R * bool)
    (ts : list (bool * (R * R))) (st : t) (o : PositionControls.Point) :
  touchListening st = true ->
  origin (controls st) = Some o ->
  PositionControls.friction (controls st) <> 0 ->
  let acted := map snd (filter fst ts) in
  let final := last acted (PositionControls.x o, PositionControls.y o) in
  exists st' out,
    run owner (map (fun t => TouchMove (fst t) (fst (snd t)) (snd (snd t))) ts) st
    = Some (st', out)
    /\ sum_alphaDelta out
       = (fst final - PositionControls.x o)
         / (PositionControls.friction (controls st) * (75 / 100))
    /\ sum_betaDelta out
       = (if PositionControls.isPanorama (controls st) then 0
          else snd final - PositionControls.y o)
         / (PositionControls.friction (controls st) * (75 / 100))
    /\ origin (controls st') = Some (PositionControls.mkPoint (fst final) (snd final)).
Proof.
  intros Ht Ho _. cbv zeta. revert st o Ht Ho.
  induction ts as [|[c [px py]] ts IH]; intros st o Ht Ho.
  - simpl. exists st, []. split; [reflexivity|]. simpl.
    destruct o as [ox oy]. simpl.
    split; [unfold Rdiv; ring|].
    split; [destruct (PositionControls.isPanorama _); unfold Rdiv; ring|].
    exact Ho.
  - destruct (touch_step c px py st o Ht Ho)
      as (st1 & out1 & E1 & Ht1 & Hf & Hp & Ho1 & Ha & Hb).
    cbn [map run fst snd].
    change (dispatch owner (TouchMove c px py) st)
      with (dispatch (fun _ => (0, 0, false)) (TouchMove c px py) st).
    rewrite E1.
    destruct (IH st1 _ Ht1 Ho1) as (st2 & out2 & -> & Ha2 & Hb2 & Ho2).
    exists st2, (out1 ++ out2). split; [reflexivity|].
    rewrite sum_alphaDelta_app, sum_betaDelta_app, Ha, Hb, Ha2, Hb2, Hf, Hp.
    destruct c; cbn [filter fst snd map].
    + assert (last ((px, py) :: map snd (filter fst ts))
                   (PositionControls.x o, PositionControls.y o)
              = last (map snd (filter fst ts)) (px, py)) as El.
      { simpl. destruct (map snd (filter fst ts)) as [|q qs]; [reflexivity|].
        apply last_default_irrelevant. }
      rewrite El. cbn [PositionControls.x PositionControls.y] in *.
      split; [unfold Rdiv; ring|]. split; [|exact Ho2].
      destruct (PositionControls.isPanorama (controls st)); unfold Rdiv; ring.
    + split; [unfold Rdiv; ring|]. split; [|exact Ho2].
      destruct (PositionControls.isPanorama (controls st)); unfold Rdiv; ring.
Qed.

Lemma touch_deltas_telescope_witness :
  let owner := fun _ : PositionControls.MovestartData => (0, 0, false) in
  let st := handleTouchStart owner 10 10 (new_ 0%nat (Some 400) false None None) in
  touchListening st = true
  /\ origin (controls st) = Some (PositionControls.mkPoint 10 10)
  /\ PositionControls.friction (controls st) <> 0
  /\ exists st' out,
       run owner [TouchMove true 40 10; TouchMove false 500 500; TouchMove true 70 40] st
       = Some (st', out)
       /\ sum_alphaDelta out = 60 / 300
       /\ sum_betaDelta out = 30 / 300.
Proof.
  cbv zeta.
  set (owner := fun _ : PositionControls.MovestartData => (0, 0, false)).
  set (st := handleTouchStart owner 10 10 (new_ 0%nat (Some 400) false None None)).
  assert (PositionControls.friction (controls st) <> 0) as Hf by (simpl; lra).
  split; [reflexivity|]. split; [reflexivity|]. split; [exact Hf|].
  destruct (touch_deltas_telescope owner
              [(true, (40, 10)); (false, (500, 500)); (true, (70, 40))] st
              (PositionControls.mkPoint 10 10) eq_refl eq_refl Hf)
    as (st' & out & E & Ha & Hb & _).
  exists st', out. split; [exact E|].
  rewrite Ha, Hb. simpl. split; lra.
Defined.

Lemma handleKeyDown_other_key owner (k which : Z) (st : t) :
  PositionControls.keyStillDown (controls st) = Some k ->
  which <> k ->
  handleKeyDown owner which st = (st, []).
Proof.
  intros Ek Hne. unfold handleKeyDown.
  destruct (existsb (Z.eqb which) _); cbn [negb]; [|reflexivity].
  rewrite Ek. rewrite Ek.
  destruct (Z.eqb_spec k which) as [->|_]; [congruence|reflexivity].
Qed.

(** X4. While a key is held, key-down events of any other keys, arrow keys
    or not, change nothing and trigger nothing: the session stays with
    the first key until it is released. *)
Theorem other_keys_ignored_while_key_held
    (owner : PositionControls.MovestartData -> R * R * bool)
    (k : Z) (ws : list Z) (st : t) :
  PositionControls.keyStillDown (controls st) = Some k ->
  Forall (fun w => w <> k) ws ->
  run owner (map KeyDown ws) st = Some (st, []).
Proof.
  intros Ek Hws. induction Hws as [|w ws Hw _ IH]; [reflexivity|].
  cbn [map run dispatch].
  rewrite (handleKeyDown_other_key owner k w st Ek Hw), IH. reflexivity.
Qed.

Lemma other_keys_ignored_while_key_held_witness :
  let owner := fun _ : PositionControls.MovestartData => (0, 0, false) in
  let st := fst (handleKeyDown owner 37 (new_ 0%nat None false None None)) in
  PositionControls.keyStillDown (controls st) = Some 37%Z
  /\ Forall (fun w => w <> 37%Z) [39; 65; 40]%Z
  /\ run owner (map KeyDown [39; 65; 40]%Z) st = Some (st, []).
Proof.
  cbv zeta.
  assert (Forall (fun w => w <> 37%Z) [39; 65; 40]%Z) as Hws.
  { repeat constructor; discriminate. }
  split; [reflexivity|]. split; [exact Hws|].
  apply other_keys_ignored_while_key_held with (k := 37%Z);
    [reflexivity|exact Hws].
Defined.

Lemma start_accepted (owner : PositionControls.MovestartData -> R * R * bool)
    (x0 y0 : R) (control : string) (event : option Handle)
    (pc : PositionControls.t) :
  truthy (PositionControls.controlActive pc) = false ->
  (forall d, snd (owner d) = false) ->
  exists sx sy,
    start owner x0 y0 control event pc
    = (true,
       PositionControls.set_session
         (Some (PositionControls.mkPoint x0 y0)) 0 0 (JStr control)
         (PositionControls.set_start_rotation sx sy pc)).
Proof.
  intros Ha Hv.
  unfold start, PositionControls.start, listener, PositionControls.own_listener.
  rewrite Ha.
  specialize (Hv (PositionControls.mkMovestartData
                    (PositionControls.element pc) (PositionControls.isCamera pc) event)).
  destruct (owner _) as [[sx sy] veto]. simpl in Hv. subst veto.
  exists sx, sy. reflexivity.
Qed.

(** X5. On a controller at rest whose owner lets it start, the first
    key-down of an arrow key, or of its keypad equivalent, starts a
    keyboard session held by that key and triggers one move of
    [1 / (0.025 * friction)] along one axis: left and up in the
    direction of [invert], right and down against it, the vertical ones
    being 0 in panorama mode. *)
Theorem arrow_key_starts_session_and_steps
    (owner : PositionControls.MovestartData -> R * R * bool)
    (st : t) (which : Z) (dx dy : R) :
  truthy (PositionControls.controlActive (controls st)) = false ->
  PositionControls.keyStillDown (controls st) = None ->
  (forall d, snd (owner d) = false) ->
  PositionControls.friction (controls st) <> 0 ->
  In (which, (dx, dy))
     [(37%Z, (1, 0)); (100%Z, (1, 0)); (38%Z, (0, 1)); (104%Z, (0, 1));
      (39%Z, (-1, 0)); (102%Z, (-1, 0)); (40%Z, (0, -1)); (98%Z, (0, -1))] ->
  exists e,
    snd (handleKeyDown owner which st) = [EmMove e]
    /\ PositionControls.alphaDelta e
       = dx * PositionControls.invert (controls st)
         / (PositionControls.friction (controls st) * (25 / 1000))
    /\ PositionControls.betaDelta e
       = (if PositionControls.isPanorama (controls st) then 0
          else dy * PositionControls.invert (controls st))
         / (PositionControls.friction (controls st) * (25 / 1000))
    /\ PositionControls.keyStillDown (controls (fst (handleKeyDown owner which st)))
       = Some which
    /\ keyupListening (fst (handleKeyDown owner which st)) = true
    /\ PositionControls.isMoving (Some "keyboard"%string)
         (controls (fst (handleKeyDown owner which st))) = true.
Proof.
  intros Ha Ek Hv _ Hin.
  destruct (start_accepted owner 0 0 "keyboard" None (controls st) Ha Hv)
    as (sx & sy & Es).
  destruct st as [pc m tl kl]. cbn [controls] in *.
  simpl in Hin.
  repeat (destruct Hin as [Hin|Hin];
          [injection Hin as <- <- <-;
           unfold handleKeyDown; cbn [existsb Z.eqb Pos.eqb orb negb controls];
           rewrite Ek, Es; cbn [negb controls set_keyStillDown
                                 PositionControls.keyStillDown];
           rewrite Z.eqb_refl; cbn [negb Z.eqb Pos.eqb orb];
           unfold moved; simpl;
           eexists; split; [reflexivity|]; simpl;
           repeat split;
           destruct (PositionControls.isPanorama pc); unfold Rdiv; ring
          |]).
  destruct Hin.
Qed.

Lemma arrow_key_starts_session_and_steps_witness :
  let owner := fun _ : PositionControls.MovestartData => (0, 0, false) in
  let st := new_ 0%nat (Some 400) true (Some true) None in
  truthy (PositionControls.controlActive (controls st)) = false
  /\ PositionControls.keyStillDown (controls st) = None
  /\ (forall d, snd (owner d) = false)
  /\ PositionControls.friction (controls st) <> 0
  /\ exists e,
       snd (handleKeyDown owner 39 st) = [EmMove e]
       /\ PositionControls.alphaDelta e = - (1 / 10).
Proof.
  cbv zeta.
  set (owner := fun _ : PositionControls.MovestartData => (0, 0, false)).
  set (st := new_ 0%nat (Some 400) true (Some true) None).
  assert (PositionControls.friction (controls st) <> 0) as Hf by (simpl; lra).
  assert (forall d, snd (owner d) = false) as Hv by (intros d; reflexivity).
  split; [reflexivity|]. split; [reflexivity|]. split; [exact Hv|].
  split; [exact Hf|].
  destruct (arrow_key_starts_session_and_steps owner st 39 (-1) 0
              eq_refl eq_refl Hv Hf)
    as (e & E & Ha & _).
  { simpl. right. right. right. right. left. reflexivity. }
  exists e. split; [exact E|]. rewrite Ha. simpl. lra.
Defined.

(** X1. Whatever DOM events reach a controller, in whatever order, its
    listeners never read an unset start position, and afterwards the
    listeners registered are exactly those of the control that is
    moving: mouse move/up for a mouse session, touch move/end for a
    touch session, key up for a keyboard session, and none, with no key
    held and no pointer position remembered, when nothing moves. *)
Theorem input_sessions_are_exclusive
    (owner : PositionControls.MovestartData -> R * R * bool)
    (es : list DomEvent)
    (el : Handle) (fr : option R) (shouldInvert : bool) (cam pano : option bool) :
  exists st out,
    run owner es (new_ el fr shouldInvert cam pano) = Some (st, out)
    /\ mouseListening st = PositionControls.isMoving (Some "mouse"%string) (controls st)
    /\ touchListening st = PositionControls.isMoving (Some "touch"%string) (controls st)
    /\ keyupListening st = PositionControls.isMoving (Some "keyboard"%string) (controls st)
    /\ (PositionControls.isMoving None (controls st) = false ->
        PositionControls.keyStillDown (controls st) = None
        /\ PositionControls.prevPosition (controls st) = None).
Proof.
  destruct (run_consistent owner es (new_ el fr shouldInvert cam pano))
    as (st & out & E & Hc); [left; apply new_idle|].
  exists st, out. split; [exact E|].
  destruct st as [pc m tl kl]. unfold_states. simpl in *.
  unfold PositionControls.isMoving.
  destruct Hc as [H|[H|[H|H]]].
  - destruct H as (Ha & -> & -> & -> & Hk & Hp).
    destruct (PositionControls.controlActive pc) as [|b|s]; simpl in *.
    + repeat split; assumption.
    + subst b. repeat split; assumption.
    + destruct s as [|a s]; [|discriminate]. repeat split; assumption.
  - destruct H as (-> & -> & -> & -> & Hk & Hs). simpl.
    repeat split; discriminate.
  - destruct H as (-> & -> & -> & -> & Hk & Hs). simpl.
    repeat split; discriminate.
  - destruct H as (-> & -> & -> & -> & Hk & Hs). simpl.
    repeat split; discriminate.
Qed.

Lemma input_sessions_are_exclusive_witness :
  let owner := fun _ : PositionControls.MovestartData => (0, 0, false) in
  exists st out,
    run owner
        [MouseDown 1 10 10 0%nat; TouchStart 5 5; KeyDown 37;
         MouseMove None None 30 10; TouchMove true 9 9; MouseUp; KeyDown 39]
        (new_ 0%nat None false None None)
    = Some (st, out)
    /\ mouseListening st
       = PositionControls.isMoving (Some "mouse"%string) (controls st)
    /\ keyupListening st
       = PositionControls.isMoving (Some "keyboard"%string) (controls st).
Proof.
  cbv zeta.
  destruct (input_sessions_are_exclusive
              (fun _ : PositionControls.MovestartData => (0, 0, false))
              [MouseDown 1 10 10 0%nat; TouchStart 5 5; KeyDown 37;
               MouseMove None None 30 10; TouchMove true 9 9; MouseUp; KeyDown 39]
              0%nat None false None None)
    as (st & out & E & Hm & _ & Hk & _).
  exists st, out. split; [exact E|]. split; [exact Hm|exact Hk].
Defined.

End InputFacts.

(** ** Whole drags *)

Module DragFacts.
Import Js JsNum NumFacts.

Lemma rem_is_shift (a b : R) : exists k : Z, rem a b = a + IZR k * b.
Proof.
  exists (- trunc (a / b))%Z. unfold rem. rewrite opp_IZR. ring.
Qed.

Lemma moves_alpha_shift (ms : list (R * R * R)) (pc : PositionControls.t) :
  exists k : Z,
    PositionControls.alpha (Drag.moves ms pc)
    = PositionControls.alpha pc + Drag.total_yaw ms + IZR k * (PI * 2).
Proof.
  revert pc. induction ms as [|[[dx dy] f] ms IH]; intros pc.
  - exists 0%Z. simpl. ring.
  - cbn [Drag.moves Drag.total_yaw].
    destruct (IH (fst (PositionControls.move dx dy f pc))) as [k Ek].
    rewrite Ek, PositionFacts.move_alpha.
    destruct (rem_is_shift (PositionControls.alpha pc + dx / f) (PI * 2)) as [j ->].
    exists (j + k)%Z. rewrite plus_IZR. ring.
Qed.

(** X6. Wrapping never loses more than whole turns: after any run of
    moves the yaw accumulator is the yaw it had plus all the deltas
    asked for, up to an integer number of full turns. *)
Theorem moves_alpha_congruent (ms : list (R * R * R)) (pc : PositionControls.t) :
  Forall (fun m => snd m <> 0) ms ->
  exists k : Z,
    PositionControls.alpha (Drag.moves ms pc)
    = PositionControls.alpha pc + Drag.total_yaw ms + IZR k * (PI * 2).
Proof. intros _. apply moves_alpha_shift. Qed.

Lemma moves_alpha_congruent_witness :
  let pc := PositionControls.new_ 0%nat (Some 400) true (Some true) None in
  let ms := [(1000, 0, 400); (2000, 5, 400); (-500, 0, 400)] in
  Forall (fun m => snd m <> 0) ms
  /\ exists k : Z,
       PositionControls.alpha (Drag.moves ms pc) = 25 / 4 + IZR k * (PI * 2).
Proof.
  cbv zeta.
  assert (Forall (fun m : R * R * R => snd m <> 0)
                 [(1000, 0, 400); (2000, 5, 400); (-500, 0, 400)]) as Hf.
  { repeat constructor; simpl; lra. }
  split; [exact Hf|].
  destruct (moves_alpha_congruent [(1000, 0, 400); (2000, 5, 400); (-500, 0, 400)]
              (PositionControls.new_ 0%nat (Some 400) true (Some true) None) Hf)
    as [k Ek].
  exists k. rewrite Ek. simpl. lra.
Defined.

End DragFacts.

(** ** Camera drags and positions *)

Module CameraFacts.
Import Js JsNum NumFacts ThreeSixty.

Lemma cameraControls_move_controls (dx dy f : R) (s : t) :
  cameraControls (cameraControls_move dx dy f s)
  = fst (PositionControls.move dx dy f (cameraControls s)).
Proof. reflexivity. Qed.

Lemma camera_moves_controls (ms : list (R * R * R)) (s : t) :
  cameraControls (Drag.camera_moves ms s) = Drag.moves ms (cameraControls s).
Proof.
  revert s. induction ms as [|[[dx dy] f] ms IH]; intros s; [reflexivity|].
  cbn [Drag.camera_moves Drag.moves]. rewrite IH. reflexivity.
Qed.

Lemma moves_startY (ms : list (R * R * R)) (pc : PositionControls.t) :
  PositionControls.startY (Drag.moves ms pc) = PositionControls.startY pc
  /\ PositionControls.startX (Drag.moves ms pc) = PositionControls.startX pc
  /\ PositionControls.controlActive (Drag.moves ms pc)
     = PositionControls.controlActive pc.
Proof.
  revert pc. induction ms as [|[[dx dy] f] ms IH]; intros pc; [repeat split|].
  cbn [Drag.moves]. destruct (IH (fst (PositionControls.move dx dy f pc)))
    as (H1 & H2 & H3).
  rewrite H1, H2, H3. repeat split.
Qed.

(** What the moves of a drag leave alone in the coordinator. *)
Lemma camera_moves_frame (ms : list (R * R * R)) (s : t) :
  preventDeviceOrientation (Drag.camera_moves ms s) = preventDeviceOrientation s
  /\ triggered (Drag.camera_moves ms s) = triggered s
  /\ fieldOfView (Drag.camera_moves ms s) = fieldOfView s
  /\ isPanorama (Drag.camera_moves ms s) = isPanorama s
  /\ threeElements (Drag.camera_moves ms s) = threeElements s.
Proof.
  revert s. induction ms as [|[[dx dy] f] ms IH]; intros s; [repeat split|].
  cbn [Drag.camera_moves].
  destruct (IH (cameraControls_move dx dy f s)) as (H1 & H2 & H3 & H4 & H5).
  rewrite H1, H2, H3, H4, H5. repeat split.
Qed.

(** The yaw the move listener writes is the requested one shifted by
    whole turns into [[0, 2*PI)]. *)
Lemma cameraControls_move_yaw (dx dy f : R) (s : t) :
  0 <= Three.rot_y (Three.rotation (camera (cameraControls_move dx dy f s))) < PI * 2
  /\ exists k : Z,
       Three.rot_y (Three.rotation (camera (cameraControls_move dx dy f s)))
       = PositionControls.startY (cameraControls s)
         + PositionControls.alpha (cameraControls (cameraControls_move dx dy f s))
         + IZR k * (PI * 2).
Proof.
  assert (0 < PI * 2) as Hpos by (pose proof PI_RGT_0; lra).
  unfold cameraControls_move.
  change (PositionControls.move dx dy f (cameraControls s))
    with (fst (PositionControls.move dx dy f (cameraControls s)),
          snd (PositionControls.move dx dy f (cameraControls s))).
  cbv iota beta. unfold onCameraMove.
  cbn [camera with_camera with_cameraControls cameraControls Three.rotation
       Three.set_rotation Three.rot_y].
  set (v := PositionControls.startY _ + PositionControls.ev_alpha _).
  assert (v = PositionControls.startY (cameraControls s)
              + PositionControls.alpha
                  (fst (PositionControls.move dx dy f (cameraControls s)))) as Ev
    by reflexivity.
  rewrite <- Ev.
  pose proof (rem_bounds v (PI * 2) Hpos) as Hb.
  destruct (DragFacts.rem_is_shift v (PI * 2)) as [j Ej].
  destruct (Rlt_dec (rem v (PI * 2)) 0) as [Hneg|Hnn].
  - split; [lra|]. exists (j + 1)%Z. rewrite plus_IZR, Ej. ring.
  - split; [lra|]. exists j. exact Ej.
Qed.

(** What an accepted start of a camera drag leaves behind. *)
Lemma cameraControls_start_accepted
    (host_prevents : PositionControls.MovestartData -> bool)
    (x0 y0 : R) (control : string) (event : option Handle) (s : t) :
  fst (cameraControls_start host_prevents x0 y0 control event s) = true ->
  let s1 := snd (cameraControls_start host_prevents x0 y0 control event s) in
  camera s1 = camera s
  /\ PositionControls.startY (cameraControls s1) = Three.rot_y (Three.rotation (camera s))
  /\ PositionControls.startX (cameraControls s1) = Three.rot_x (Three.rotation (camera s))
  /\ PositionControls.alpha (cameraControls s1) = 0
  /\ PositionControls.beta (cameraControls s1) = 0
  /\ PositionControls.controlActive (cameraControls s1) = JStr control
  /\ preventDeviceOrientation s1 = JBool true
  /\ triggered s1
     = triggered s
       ++ [Movestart
             (PositionControls.mkMovestartData
                (PositionControls.element (cameraControls s))
                (PositionControls.isCamera (cameraControls s)) event)]
  /\ fieldOfView s1 = fieldOfView s.
Proof.
  unfold cameraControls_start, PositionControls.start.
  destruct (truthy (PositionControls.controlActive (cameraControls s)));
    [discriminate|].
  cbn [onCameraMovestart]. cbv zeta.
  destruct (host_prevents _); [discriminate|].
  intros _. repeat split.
Qed.

Lemma camera_moves_yaw (ms : list (R * R * R)) (s : t) :
  ms <> [] ->
  0 <= Three.rot_y (Three.rotation (camera (Drag.camera_moves ms s))) < PI * 2
  /\ exists k : Z,
       Three.rot_y (Three.rotation (camera (Drag.camera_moves ms s)))
       = PositionControls.startY (cameraControls s)
         + PositionControls.alpha (cameraControls (Drag.camera_moves ms s))
         + IZR k * (PI * 2).
Proof.
  revert s. induction ms as [|[[dx dy] f] ms IH]; intros s Hne; [congruence|].
  cbn [Drag.camera_moves]. destruct ms as [|m ms].
  - apply cameraControls_move_yaw.
  - destruct (IH (cameraControls_move dx dy f s)) as [Hr [k Ek]]; [discriminate|].
    split; [exact Hr|]. exists k. rewrite Ek. reflexivity.
Qed.

(** X7. Through a camera drag the camera's yaw follows the pointer up to
    whole turns: after an accepted start and at least one move it lies
    in [[0, 2*PI)] and equals the yaw the drag started from plus all the
    deltas asked for, modulo [2*PI]. *)
Theorem camera_drag_yaw
    (host_prevents : PositionControls.MovestartData -> bool)
    (x0 y0 : R) (control : string) (event : option Handle)
    (ms : list (R * R * R)) (s : t) :
  fst (cameraControls_start host_prevents x0 y0 control event s) = true ->
  ms <> [] ->
  Forall (fun m => snd m <> 0) ms ->
  let s' :=
    Drag.camera_moves ms
      (snd (cameraControls_start host_prevents x0 y0 control event s)) in
  0 <= Three.rot_y (Three.rotation (camera s')) < PI * 2
  /\ exists k : Z,
       Three.rot_y (Three.rotation (camera s'))
       = Three.rot_y (Three.rotation (camera s)) + Drag.total_yaw ms
         + IZR k * (PI * 2).
Proof.
  intros Hok Hne _. cbv zeta.
  destruct (cameraControls_start_accepted host_prevents x0 y0 control event s Hok)
    as (_ & Hy & _ & Ha & _).
  set (s1 := snd (cameraControls_start host_prevents x0 y0 control event s)) in *.
  destruct (camera_moves_yaw ms s1 Hne) as [Hr [k Ek]].
  split; [exact Hr|].
  rewrite camera_moves_controls in Ek.
  destruct (DragFacts.moves_alpha_shift ms (cameraControls s1)) as [j Ej].
  rewrite Ej, Ha, Hy in Ek.
  exists (j + k)%Z. rewrite Ek, plus_IZR. ring.
Qed.

Lemma camera_drag_yaw_witness :
  let s := new_ 0%nat (mkOptions None (Some (Some 0, Some 0)) false) in
  let ms := [(-100, 0, 400); (-100, 10, 400)] in
  fst (cameraControls_start (fun _ => false) 0 0 "mouse" None s) = true
  /\ ms <> []
  /\ Forall (fun m => snd m <> 0) ms
  /\ 0 <= Three.rot_y
            (Three.rotation
               (camera (Drag.camera_moves ms
                          (snd (cameraControls_start (fun _ => false)
                                  0 0 "mouse" None s))))) < PI * 2.
Proof.
  cbv zeta.
  assert (Forall (fun m : R * R * R => snd m <> 0)
                 [(-100, 0, 400); (-100, 10, 400)]) as Hf.
  { repeat constructor; simpl; lra. }
  assert ([(-100, 0, 400); (-100, 10, 400)] <> @nil (R * R * R)) as Hne
    by discriminate.
  split; [reflexivity|]. split; [exact Hne|]. split; [exact Hf|].
  exact (proj1 (camera_drag_yaw (fun _ => false) 0 0 "mouse" None
                  [(-100, 0, 400); (-100, 10, 400)]
                  (new_ 0%nat (mkOptions None (Some (Some 0, Some 0)) false))
                  eq_refl Hne Hf)).
Defined.



(** X9. A camera drag from start to end: while it lasts,
    [setCameraPosition] is ignored; its end clears the suspension flag
    and the session marker, and what the coordinator has triggered over
    the drag is the relayed [movestart] followed by one [movestop]
    carrying the position [getCurrentPosition] reports. *)
Theorem camera_drag_lifecycle
    (host_prevents : PositionControls.MovestartData -> bool)
    (x0 y0 : R) (control : string) (event : option Handle)
    (ms : list (R * R * R)) (s : t) :
  fst (cameraControls_start host_prevents x0 y0 control event s) = true ->
  let s2 :=
    Drag.camera_moves ms
      (snd (cameraControls_start host_prevents x0 y0 control event s)) in
  let s3 := cameraControls_end s2 in
  (forall yaw0 pitch0, setCameraPosition yaw0 pitch0 s2 = s2)
  /\ preventDeviceOrientation s3 = JBool false
  /\ PositionControls.isMoving None (cameraControls s3) = false
  /\ triggered s3
     = triggered s
       ++ [Movestart
             (PositionControls.mkMovestartData
                (PositionControls.element (cameraControls s))
                (PositionControls.isCamera (cameraControls s)) event);
           Movestop (getCurrentPosition s3)].
Proof.
  intros Hok. cbv zeta.
  destruct (cameraControls_start_accepted host_prevents x0 y0 control event s Hok)
    as (_ & _ & _ & _ & _ & _ & Hflag & Htr & _).
  set (s1 := snd (cameraControls_start host_prevents x0 y0 control event s)) in *.
  destruct (camera_moves_frame ms s1) as (Hf2 & Ht2 & _).
  split.
  { intros yaw0 pitch0. unfold setCameraPosition. rewrite Hf2, Hflag. reflexivity. }
  split; [reflexivity|]. split; [reflexivity|].
  unfold cameraControls_end, onCameraMovestop.
  cbn [triggered trigger with_preventDeviceOrientation with_cameraControls
       camera getCurrentPosition].
  rewrite Ht2, Htr, <- app_assoc. reflexivity.
Qed.

Lemma camera_drag_lifecycle_witness :
  let s := new_ 0%nat (mkOptions None None false) in
  fst (cameraControls_start (fun _ => false) 5 5 "touch" None s) = true
  /\ preventDeviceOrientation
       (cameraControls_end
          (Drag.camera_moves [(30, 0, 300)]
             (snd (cameraControls_start (fun _ => false) 5 5 "touch" None s))))
     = JBool false.
Proof.
  cbv zeta. split; [reflexivity|].
  destruct (camera_drag_lifecycle (fun _ => false) 5 5 "touch" None [(30, 0, 300)]
              (new_ 0%nat (mkOptions None None false)) eq_refl)
    as (_ & H & _).
  exact H.
Defined.

(** X10. A camera drag the host prevents leaves the suspension flag
    set: the listener sets it before the host's verdict is read, and
    with no session started nothing ends one.  [start] returns [false],
    no control is moving, and [setCameraPosition] is ignored from then
    on. *)
Theorem prevented_start_leaves_camera_suspended
    (host_prevents : PositionControls.MovestartData -> bool)
    (x0 y0 : R) (control : string) (event : option Handle) (s : t) :
  truthy (PositionControls.controlActive (cameraControls s)) = false ->
  host_prevents
    (PositionControls.mkMovestartData
       (PositionControls.element (cameraControls s))
       (PositionControls.isCamera (cameraControls s)) event) = true ->
  let r := cameraControls_start host_prevents x0 y0 control event s in
  fst r = false
  /\ PositionControls.isMoving None (cameraControls (snd r)) = false
  /\ preventDeviceOrientation (snd r) = JBool true
  /\ forall yaw0 pitch0, setCameraPosition yaw0 pitch0 (snd r) = snd r.
Proof.
  intros Ha Hv. cbv zeta.
  unfold cameraControls_start, PositionControls.start.
  rewrite Ha. cbn [onCameraMovestart]. cbv zeta. rewrite Hv.
  cbn [fst snd]. split; [reflexivity|]. split; [exact Ha|].
  split; [reflexivity|]. intros yaw0 pitch0. reflexivity.
Qed.

Lemma prevented_start_leaves_camera_suspended_witness :
  let s := new_ 0%nat (mkOptions None None false) in
  let r := cameraControls_start (fun _ => true) 0 0 "mouse" None s in
  truthy (PositionControls.controlActive (cameraControls s)) = false
  /\ fst r = false
  /\ setCameraPosition 1 0 (snd r) = snd r.
Proof.
  cbv zeta.
  destruct (prevented_start_leaves_camera_suspended (fun _ => true) 0 0 "mouse" None
              (new_ 0%nat (mkOptions None None false)) eq_refl eq_refl)
    as (H1 & _ & _ & H4).
  split; [reflexivity|]. split; [exact H1|]. exact (H4 1 0).
Defined.

End CameraFacts.

(** ** Camera position, modes and the collection *)

Module CoordinatorFacts.
Import Js JsNum NumFacts ThreeSixty.

(** X11. The position [getCurrentPosition] reports can be handed back:
    with the suspension flag clear and panorama mode off,
    [setCameraPosition] with the reported yaw and pitch leaves the
    camera as it is and triggers one [movestop] with that position. *)
Theorem setCameraPosition_of_current (s : t) :
  truthy (preventDeviceOrientation s) = false ->
  truthy (isPanorama s) = false ->
  let p := getCurrentPosition s in
  camera (setCameraPosition (yaw p) (pitch p) s) = camera s
  /\ getCurrentPosition (setCameraPosition (yaw p) (pitch p) s) = p
  /\ triggered (setCameraPosition (yaw p) (pitch p) s) = triggered s ++ [Movestop p].
Proof.
  intros Hflag Hpano. cbv zeta.
  unfold setCameraPosition, getCurrentPosition. rewrite Hflag, Hpano.
  destruct s as [cam cc fv ra pano flag pcm els tr].
  destruct cam as [ip io fv' zm asp rot]. destruct rot as [rx ry rz ord].
  simpl. rewrite !Ropp_involutive. repeat split.
Qed.

Lemma setCameraPosition_of_current_witness :
  let s :=
    cameraControls_end
      (cameraControls_move 120 40 400
         (snd (cameraControls_start (fun _ => false) 0 0 "mouse" None
                 (new_ 0%nat (mkOptions None None false))))) in
  truthy (preventDeviceOrientation s) = false
  /\ truthy (isPanorama s) = false
  /\ camera (setCameraPosition (yaw (getCurrentPosition s))
                               (pitch (getCurrentPosition s)) s)
     = camera s.
Proof.
  cbv zeta.
  set (s := cameraControls_end
              (cameraControls_move 120 40 400
                 (snd (cameraControls_start (fun _ => false) 0 0 "mouse" None
                         (new_ 0%nat (mkOptions None None false)))))).
  assert (truthy (preventDeviceOrientation s) = false) as Hflag by reflexivity.
  assert (truthy (isPanorama s) = false) as Hpano by reflexivity.
  split; [exact Hflag|]. split; [exact Hpano|].
  exact (proj1 (setCameraPosition_of_current s Hflag Hpano)).
Defined.

(** X12. The constructor points the camera at the start position of its
    options, at yaw [-(2/3)*PI] and pitch 0 where they give none, and
    triggers one [movestop] with it.  The pitch is taken as given for a
    panorama too: the coordinator's panorama flag and the suspension
    flag are unset until [setSourceElement] or a drag sets them. *)
Theorem new_points_camera_at_start (dom : Handle) (options : Options) :
  let startYaw :=
    match opt_cameraStartPosition options with
    | Some (Some v, _) => v
    | _ => - (PI * (2 / 3))
    end in
  let startPitch :=
    match opt_cameraStartPosition options with
    | Some (_, Some v) => v
    | _ => 0
    end in
  getCurrentPosition (new_ dom options) = mkPosition startYaw startPitch
  /\ triggered (new_ dom options) = [Movestop (mkPosition startYaw startPitch)]
  /\ isPanorama (new_ dom options) = JUndefined
  /\ preventDeviceOrientation (new_ dom options) = JUndefined
  /\ threeElements (new_ dom options) = []
  /\ PositionControls.isPanorama (cameraControls (new_ dom options))
     = opt_isPanorama options.
Proof.
  cbv zeta. unfold new_, setCameraPosition, getCurrentPosition.
  destruct (opt_cameraStartPosition options) as [[[y|] [p|]]|];
    simpl; rewrite !Ropp_involutive; repeat split.
Qed.

(** X13. After [setSourceElement] with [true] vertical look is locked on
    both paths: a move of the camera controls gives the same result
    whatever its [deltaY], and [setCameraPosition], when not suspended,
    stores a pitch of 0; the camera's field of view is 53. *)
Theorem setSourceElement_true_locks_pitch (s : t) :
  let s' := setSourceElement (JBool true) s in
  Three.fov (camera s') = 53
  /\ (forall dx dy dy' f,
        cameraControls_move dx dy f s' = cameraControls_move dx dy' f s')
  /\ (forall yaw0 pitch0,
        truthy (preventDeviceOrientation s) = false ->
        getCurrentPosition (setCameraPosition yaw0 pitch0 s')
        = mkPosition yaw0 0).
Proof.
  cbv zeta. split; [reflexivity|]. split.
  - intros dx dy dy' f. reflexivity.
  - intros yaw0 pitch0 Hflag. unfold setCameraPosition, getCurrentPosition.
    cbn [setSourceElement preventDeviceOrientation with_cameraControls
         with_camera with_isPanorama].
    rewrite Hflag. simpl. rewrite Ropp_involutive. reflexivity.
Qed.

Lemma setSourceElement_true_locks_pitch_witness :
  let s := new_ 0%nat (mkOptions None None false) in
  truthy (preventDeviceOrientation s) = false
  /\ getCurrentPosition
       (setCameraPosition 1 (1 / 2) (setSourceElement (JBool true) s))
     = mkPosition 1 0.
Proof.
  cbv zeta. split; [reflexivity|].
  destruct (setSourceElement_true_locks_pitch
              (new_ 0%nat (mkOptions None None false))) as (_ & _ & H).
  exact (H 1 (1 / 2) eq_refl).
Defined.

(** X14. [setSourceElement] with a flag that is not a boolean still sets
    the coordinator's mode and the camera's field of view by the flag's
    truthiness, but the camera controls keep the panorama lock they
    had; and no call of [setSourceElement] changes the pitch the move
    listener applies, whose bound stays with the constructor's field of
    view. *)
Theorem setSourceElement_partial_update (v : JsVal) (s : t) :
  let s' := setSourceElement v s in
  truthy (isPanorama s') = truthy v
  /\ Three.fov (camera s') = (if truthy v then 53 else 75)
  /\ ((forall b, v <> JBool b) -> cameraControls s' = cameraControls s)
  /\ (forall event,
        Three.rot_x (Three.rotation (camera (onCameraMove event s')))
        = Three.rot_x (Three.rotation (camera (onCameraMove event s)))).
Proof.
  cbv zeta. split; [reflexivity|]. split; [reflexivity|]. split.
  - intros Hnb. destruct v as [|b|str]; try reflexivity.
    exfalso. exact (Hnb b eq_refl).
  - intros event. destruct v as [|b|str]; reflexivity.
Qed.

Lemma setSourceElement_partial_update_witness :
  let s := setSourceElement (JBool true) (new_ 0%nat (mkOptions None None false)) in
  (forall b, JUndefined <> JBool b)
  /\ Three.fov (camera (setSourceElement JUndefined s)) = 75
  /\ PositionControls.isPanorama (cameraControls (setSourceElement JUndefined s))
     = true.
Proof.
  cbv zeta.
  assert (forall b, JUndefined <> JBool b) as Hnb by (intros b; discriminate).
  split; [exact Hnb|].
  destruct (setSourceElement_partial_update JUndefined
              (setSourceElement (JBool true)
                 (new_ 0%nat (mkOptions None None false))))
    as (_ & Hfov & Hcc & _).
  split; [exact Hfov|]. rewrite (Hcc Hnb). reflexivity.
Defined.

Lemma indexOf_first {A : Type} (same : A -> bool) (l1 l2 : list A) (a : A) :
  (forall b, In b l1 -> same b = false) -> same a = true ->
  indexOf same (l1 ++ a :: l2) = Z.of_nat (List.length l1).
Proof.
  intros Hno Ha. induction l1 as [|b l1 IH]; simpl.
  - rewrite Ha. reflexivity.
  - rewrite (Hno b) by (left; reflexivity).
    rewrite IH by (intros c Hc; apply Hno; right; exact Hc).
    destruct (Z.ltb_spec (Z.of_nat (List.length l1)) 0); lia.
Qed.

Lemma firstn_skipn_around {A : Type} (l1 l2 : list A) (a : A) :
  firstn (List.length l1) (l1 ++ a :: l2) = l1
  /\ skipn (S (List.length l1)) (l1 ++ a :: l2) = l2.
Proof.
  induction l1 as [|b l1 [IH1 IH2]]; [split; reflexivity|].
  simpl. rewrite IH1. split; [reflexivity|exact IH2].
Qed.

Lemma splice_one_at {A : Type} (l1 l2 : list A) (a : A) :
  splice (Z.of_nat (List.length l1)) 1 (l1 ++ a :: l2) = l1 ++ l2.
Proof.
  unfold splice. cbv zeta. rewrite length_app. simpl List.length.
  destruct (Z.ltb_spec (Z.of_nat (List.length l1)) 0) as [H|_]; [lia|].
  rewrite Z.min_l by lia.
  replace (Z.max 1 0) with 1%Z by reflexivity.
  rewrite Z.min_l by lia.
  rewrite Nat2Z.id.
  replace (Z.to_nat (Z.of_nat (List.length l1) + 1)) with (S (List.length l1)) by lia.
  destruct (firstn_skipn_around l1 l2 a) as [-> ->]. reflexivity.
Qed.

Lemma remove_first_identical
    (h e : ThreeElement) (l1 l2 : list ThreeElement) (s : t) :
  threeElements s = l1 ++ e :: l2 ->
  oid e = oid h ->
  (forall a, In a l1 -> oid a <> oid h) ->
  threeElements (remove h s) = l1 ++ l2.
Proof.
  intros El Ee Hno. unfold remove. cbn [threeElements with_threeElements].
  rewrite El.
  rewrite (indexOf_first _ l1 l2 e).
  - apply splice_one_at.
  - intros a Ha. apply Nat.eqb_neq, Hno, Ha.
  - apply Nat.eqb_eq, Ee.
Qed.

(** X15. Removing an object the collection holds takes out its first
    entry identical to it and nothing else: the entries before and after
    keep their order. *)
Theorem remove_present_drops_that_entry
    (h e : ThreeElement) (l1 l2 : list ThreeElement) (s : t) :
  threeElements s = l1 ++ e :: l2 ->
  oid e = oid h ->
  (forall a, In a l1 -> oid a <> oid h) ->
  threeElements (remove h s) = l1 ++ l2.
Proof. apply remove_first_identical. Qed.

Lemma remove_present_drops_that_entry_witness :
  let e1 := mkThreeElement 1%nat 11%nat false (Three.mkVector3 0 0 0) (Three.mkEuler 0 0 0 "XYZ") in
  let e2 := mkThreeElement 2%nat 12%nat false (Three.mkVector3 0 0 0) (Three.mkEuler 0 0 0 "XYZ") in
  let e3 := mkThreeElement 3%nat 13%nat true (Three.mkVector3 0 0 0) (Three.mkEuler 0 0 0 "XYZ") in
  let s := with_threeElements [e1; e2; e3] (new_ 0%nat (mkOptions None None false)) in
  threeElements s = [e1] ++ e2 :: [e3]
  /\ oid e2 = oid e2
  /\ (forall a, In a [e1] -> oid a <> oid e2)
  /\ threeElements (remove e2 s) = [e1; e3].
Proof.
  cbv zeta.
  set (e1 := mkThreeElement 1%nat 11%nat false (Three.mkVector3 0 0 0) (Three.mkEuler 0 0 0 "XYZ")).
  set (e2 := mkThreeElement 2%nat 12%nat false (Three.mkVector3 0 0 0) (Three.mkEuler 0 0 0 "XYZ")).
  set (e3 := mkThreeElement 3%nat 13%nat true (Three.mkVector3 0 0 0) (Three.mkEuler 0 0 0 "XYZ")).
  assert (forall a, In a [e1] -> oid a <> oid e2) as Hno.
  { intros a [<-|[]]. simpl. lia. }
  split; [reflexivity|]. split; [reflexivity|]. split; [exact Hno|].
  exact (remove_present_drops_that_entry e2 e2 [e1] [e3]
           (with_threeElements [e1; e2; e3] (new_ 0%nat (mkOptions None None false)))
           eq_refl eq_refl Hno).
Defined.

Lemma find_none_of (element : Handle) (l : list ThreeElement) :
  (forall a, In a l -> source a <> element) ->
  List.find (fun e => Nat.eqb (source e) element) l = None.
Proof.
  intros Hno. induction l as [|a l IH]; [reflexivity|]. simpl.
  destruct (Nat.eqb_spec (source a) element) as [E|_].
  - exfalso. exact (Hno a (or_introl eq_refl) E).
  - apply IH. intros b Hb. apply Hno. right. exact Hb.
Qed.

(** X24. [find] and [remove] agree: where one object of the collection
    wraps a DOM element, [find] returns that object for the element,
    and after the object is removed [find] returns nothing for it. *)
Theorem find_then_remove (e : ThreeElement) (l1 l2 : list ThreeElement) (s : t) :
  threeElements s = l1 ++ e :: l2 ->
  (forall a, In a l1 -> source a <> source e /\ oid a <> oid e) ->
  (forall a, In a l2 -> source a <> source e) ->
  find (source e) s = Some e
  /\ find (source e) (remove e s) = None.
Proof.
  intros El H1 H2. split.
  - unfold find. rewrite El. clear El.
    induction l1 as [|a l1 IH]; simpl.
    + rewrite Nat.eqb_refl. reflexivity.
    + destruct (Nat.eqb_spec (source a) (source e)) as [E|_].
      * exfalso. exact (proj1 (H1 a (or_introl eq_refl)) E).
      * apply IH. intros b Hb. apply H1. right. exact Hb.
  - unfold find.
    rewrite (remove_first_identical e e l1 l2 s El eq_refl)
      by (intros a Ha; apply H1, Ha).
    apply find_none_of. intros a Ha.
    apply in_app_or in Ha. destruct Ha as [Ha|Ha].
    + apply H1, Ha.
    + apply H2, Ha.
Qed.

Lemma find_then_remove_witness :
  let e1 := mkThreeElement 1%nat 11%nat false (Three.mkVector3 0 0 0) (Three.mkEuler 0 0 0 "XYZ") in
  let e2 := mkThreeElement 2%nat 12%nat false (Three.mkVector3 0 0 0) (Three.mkEuler 0 0 0 "XYZ") in
  let s := with_threeElements [e1; e2] (new_ 0%nat (mkOptions None None false)) in
  threeElements s = [e1] ++ e2 :: []
  /\ (forall a, In a [e1] -> source a <> source e2 /\ oid a <> oid e2)
  /\ (forall a, In a (@nil ThreeElement) -> source a <> source e2)
  /\ find 12%nat s = Some e2
  /\ find 12%nat (remove e2 s) = None.
Proof.
  cbv zeta.
  set (e1 := mkThreeElement 1%nat 11%nat false (Three.mkVector3 0 0 0) (Three.mkEuler 0 0 0 "XYZ")).
  set (e2 := mkThreeElement 2%nat 12%nat false (Three.mkVector3 0 0 0) (Three.mkEuler 0 0 0 "XYZ")).
  assert (forall a, In a [e1] -> source a <> source e2 /\ oid a <> oid e2) as H1.
  { intros a [<-|[]]. simpl. split; lia. }
  assert (forall a, In a (@nil ThreeElement) -> source a <> source e2) as H2.
  { intros a []. }
  split; [reflexivity|]. split; [exact H1|]. split; [exact H2|].
  exact (find_then_remove e2 [e1] []
           (with_threeElements [e1; e2] (new_ 0%nat (mkOptions None None false)))
           eq_refl H1 H2).
Defined.

(** X16. [setElementPosition] keeps every element on the sphere of
    radius 800 around the camera, whatever yaw and pitch it is given,
    and at pitch [PI/2] puts it on the pole [(0, 800, 0)] whatever the
    yaw. *)
Theorem setElementPosition_radius (el : ThreeElement) (p : Position) :
  let v := position (setElementPosition el p) in
  Three.vx v * Three.vx v + Three.vy v * Three.vy v + Three.vz v * Three.vz v
  = 800 * 800
  /\ position (setElementPosition el (mkPosition (yaw p) (PI / 2)))
     = Three.mkVector3 0 800 0.
Proof.
  cbv zeta. split.
  - unfold setElementPosition. simpl.
    pose proof (sin2_cos2 (yaw p)) as Hy. pose proof (sin2_cos2 (pitch p)) as Hp.
    unfold Rsqr in Hy, Hp.
    replace (800 * sin (yaw p) * cos (pitch p) * (800 * sin (yaw p) * cos (pitch p))
             + 800 * sin (pitch p) * (800 * sin (pitch p))
             + - (800) * cos (yaw p) * cos (pitch p)
               * (- (800) * cos (yaw p) * cos (pitch p)))
      with (800 * 800
            * ((sin (yaw p) * sin (yaw p) + cos (yaw p) * cos (yaw p))
               * (cos (pitch p) * cos (pitch p))
               + sin (pitch p) * sin (pitch p))) by ring.
    rewrite Hy. replace (1 * (cos (pitch p) * cos (pitch p)) + sin (pitch p) * sin (pitch p))
      with (sin (pitch p) * sin (pitch p) + cos (pitch p) * cos (pitch p)) by ring.
    rewrite Hp. ring.
  - unfold setElementPosition. simpl. rewrite sin_PI2, cos_PI2.
    apply f_equal3; ring.
Qed.

End CoordinatorFacts.

(** ** Zoom steps *)

Module ZoomStepFacts.
Import JsNum NumFacts ZoomControls.

Lemma zoom_scale_pos (zc : t) : 0 < getZoomScale zc.
Proof. unfold getZoomScale, Rpower. apply exp_pos. Qed.

Lemma ln_095_neg : ln (95 / 100) < 0.
Proof. rewrite <- ln_1. apply ln_increasing; lra. Qed.

Lemma zoom_scale_le_1 (zc : t) : 0 <= zoomSpeed zc -> getZoomScale zc <= 1.
Proof.
  intros Hs. unfold getZoomScale, Rpower. rewrite <- exp_0.
  pose proof ln_095_neg as Hl.
  destruct (Req_dec (zoomSpeed zc * ln (95 / 100)) 0) as [->|Hne]; [lra|].
  left. apply exp_increasing. nra.
Qed.

Lemma zoom_scale_lt_1 (zc : t) : 0 < zoomSpeed zc -> getZoomScale zc < 1.
Proof.
  intros Hs. unfold getZoomScale, Rpower. rewrite <- exp_0.
  pose proof ln_095_neg as Hl. apply exp_increasing. nra.
Qed.

Lemma scaled_down (v s : R) : 0 <= v -> 0 < s <= 1 -> v * s <= v.
Proof. intros Hv Hs. nra. Qed.

Lemma scaled_up (v s : R) : 0 <= v -> 0 < s <= 1 -> v <= v / s.
Proof.
  intros Hv [Hs0 Hs1].
  assert (1 <= / s) as Hi.
  { rewrite <- Rinv_1. apply Rinv_le_contravar; lra. }
  unfold Rdiv. nra.
Qed.

Lemma scaled_down_strict (v s : R) : 0 < v -> 0 < s < 1 -> v * s < v.
Proof. intros Hv Hs. nra. Qed.

Lemma scaled_up_strict (v s : R) : 0 < v -> 0 < s < 1 -> v < v / s.
Proof.
  intros Hv [Hs0 Hs1].
  assert (1 < / s) as Hi.
  { rewrite <- Rinv_1. apply Rinv_lt_contravar; lra. }
  unfold Rdiv. nra.
Qed.

(** X18. The two advisory tests are exact for a perspective camera
    within positive bounds and a positive zoom speed: a default dolly-in
    leaves the field of view unchanged exactly when [isDollyInDisabled]
    holds, a default dolly-out exactly when [isDollyOutDisabled]
    holds. *)
Theorem dolly_disabled_tests_are_exact (zc : t) :
  Three.isPerspectiveCamera (object zc) = true ->
  0 < zoomSpeed zc ->
  0 < minFov zc ->
  minFov zc <= Three.fov (object zc) <= maxFov zc ->
  (isDollyInDisabled zc = true
   <-> Three.fov (object (dollyIn None zc)) = Three.fov (object zc))
  /\ (isDollyOutDisabled zc = true
      <-> Three.fov (object (dollyOut None zc)) = Three.fov (object zc)).
Proof.
  intros Hp Hs Hmin Hin.
  pose proof (zoom_scale_pos zc) as Hk0.
  pose proof (zoom_scale_lt_1 zc Hs) as Hk1.
  assert (0 < Three.fov (object zc)) as Hfv by lra.
  pose proof (scaled_down_strict _ _ Hfv (conj Hk0 Hk1)) as Hd.
  pose proof (scaled_up_strict _ _ Hfv (conj Hk0 Hk1)) as Hu.
  unfold isDollyInDisabled, isDollyOutDisabled, dollyIn, dollyOut.
  rewrite Hp. cbn [andb object set_object Three.fov Three.set_fov].
  set (k := getZoomScale zc) in *. set (fv := Three.fov (object zc)) in *.
  split.
  - destruct (Rle_dec fv (minFov zc)) as [Hle|Hgt].
    + split; [intros _|reflexivity].
      unfold Rmax, Rmin.
      destruct (Rle_dec (maxFov zc) (fv * k)); destruct (Rle_dec (minFov zc) _); lra.
    + split; [discriminate|]. intros E. exfalso. revert E.
      unfold Rmax, Rmin.
      destruct (Rle_dec (maxFov zc) (fv * k)); destruct (Rle_dec (minFov zc) _); lra.
  - destruct (Rge_dec fv (maxFov zc)) as [Hge|Hlt].
    + split; [intros _|reflexivity].
      unfold Rmax, Rmin.
      destruct (Rle_dec (maxFov zc) (fv / k)); destruct (Rle_dec (minFov zc) _); lra.
    + split; [discriminate|]. intros E. exfalso. revert E.
      unfold Rmax, Rmin.
      destruct (Rle_dec (maxFov zc) (fv / k)); destruct (Rle_dec (minFov zc) _); lra.
Qed.

Lemma dolly_disabled_tests_are_exact_witness :
  let zc := new_ (Three.PerspectiveCamera 20 (16 / 9)) true in
  Three.isPerspectiveCamera (object zc) = true
  /\ 0 < zoomSpeed zc
  /\ 0 < minFov zc
  /\ minFov zc <= Three.fov (object zc) <= maxFov zc
  /\ (isDollyInDisabled zc = true
      <-> Three.fov (object (dollyIn None zc)) = Three.fov (object zc)).
Proof.
  cbv zeta.
  set (zc := new_ (Three.PerspectiveCamera 20 (16 / 9)) true).
  assert (0 < zoomSpeed zc) as Hs by (simpl; lra).
  assert (0 < minFov zc) as Hm by (simpl; lra).
  assert (minFov zc <= Three.fov (object zc) <= maxFov zc) as Hin.
  { simpl. unfold Constants.FOV_PANORAMA. lra. }
  split; [reflexivity|]. split; [exact Hs|]. split; [exact Hm|].
  split; [exact Hin|].
  exact (proj1 (dolly_disabled_tests_are_exact zc eq_refl Hs Hm Hin)).
Defined.

(** X19. Whatever the scale, a dolly step on a perspective camera
    writes a field of view within [[minFov, maxFov]] and leaves the zoom
    factor as it was, and a dolly step on a camera that is neither
    perspective nor orthographic changes nothing. *)
Theorem dolly_stays_within_bounds (sc : option R) (zc : t) :
  minFov zc <= maxFov zc ->
  (forall s, sc = Some s -> s <> 0) ->
  forall op, op = dollyIn sc \/ op = dollyOut sc ->
  (Three.isPerspectiveCamera (object zc) = true ->
   minFov zc <= Three.fov (object (op zc)) <= maxFov zc
   /\ Three.zoom (object (op zc)) = Three.zoom (object zc))
  /\ (Three.isPerspectiveCamera (object zc) = false ->
      Three.isOrthographicCamera (object zc) = false ->
      op zc = zc).
Proof.
  intros Hf _ op [-> | ->]; unfold dollyIn, dollyOut; split.
  all: try (intros Hp; rewrite Hp; simpl; split; [|reflexivity];
            match goal with
            | |- _ <= Rmax ?lo (Rmin ?hi ?v) <= _ =>
                exact (clamp_bounds v lo hi Hf)
            end).
  all: intros Hp Ho; rewrite Hp, Ho; reflexivity.
Qed.

Lemma dolly_stays_within_bounds_witness :
  let zc := new_ (Three.PerspectiveCamera 50 (16 / 9)) false in
  minFov zc <= maxFov zc
  /\ (forall s, Some 7 = Some s -> s <> 0)
  /\ Three.isPerspectiveCamera (object zc) = true
  /\ minFov zc <= Three.fov (object (dollyOut (Some 7) zc)) <= maxFov zc.
Proof.
  cbv zeta.
  set (zc := new_ (Three.PerspectiveCamera 50 (16 / 9)) false).
  assert (minFov zc <= maxFov zc) as Hf
    by (simpl; unfold Constants.FOV_SPHERE; lra).
  assert (forall s, Some 7 = Some s -> s <> 0) as Hs.
  { intros s E. injection E as <-. lra. }
  split; [exact Hf|]. split; [exact Hs|]. split; [reflexivity|].
  destruct (dolly_stays_within_bounds (Some 7) zc Hf Hs (dollyOut (Some 7))
              (or_intror eq_refl)) as (H & _).
  exact (proj1 (H eq_refl)).
Defined.

(** X20. The wheel zooms in one direction per sign: on a perspective
    camera within non-negative bounds and with a non-negative zoom
    speed, a wheel event with negative [deltaY] narrows the field of
    view or leaves it, one with positive [deltaY] widens it or leaves
    it, both within the bounds, and one with [deltaY = 0] or with
    zooming disabled changes nothing.  The plus key does what a negative
    [deltaY] does and the minus key what a positive one does. *)
Theorem wheel_and_keys_zoom_direction (deltaY : R) (zc : t) :
  Three.isPerspectiveCamera (object zc) = true ->
  0 <= zoomSpeed zc ->
  0 <= minFov zc ->
  minFov zc <= Three.fov (object zc) <= maxFov zc ->
  (enableZoom zc = false -> onMouseWheel deltaY zc = zc)
  /\ (deltaY = 0 -> onMouseWheel deltaY zc = zc)
  /\ (enableZoom zc = true -> deltaY < 0 ->
      minFov zc <= Three.fov (object (onMouseWheel deltaY zc))
                <= Three.fov (object zc)
      /\ onKeyDown "+" zc = onMouseWheel deltaY zc)
  /\ (enableZoom zc = true -> deltaY > 0 ->
      Three.fov (object zc) <= Three.fov (object (onMouseWheel deltaY zc))
                            <= maxFov zc
      /\ onKeyDown "-" zc = onMouseWheel deltaY zc).
Proof.
  intros Hp Hs Hmin Hin.
  pose proof (zoom_scale_pos zc) as Hk0.
  pose proof (zoom_scale_le_1 zc Hs) as Hk1.
  assert (0 <= Three.fov (object zc)) as Hfv by lra.
  pose proof (scaled_down _ _ Hfv (conj Hk0 Hk1)) as Hd.
  pose proof (scaled_up _ _ Hfv (conj Hk0 Hk1)) as Hu.
  unfold onMouseWheel, onKeyDown, handleMouseWheel, handleKeyDown.
  split; [intros ->; reflexivity|].
  split.
  { intros ->. destruct (enableZoom zc); cbn [negb]; [|reflexivity].
    destruct (Rlt_dec 0 0); [lra|]. destruct (Rgt_dec 0 0); [lra|]. reflexivity. }
  split.
  - intros -> Hneg. cbn [negb].
    destruct (Rlt_dec deltaY 0); [|lra].
    split; [|reflexivity].
    unfold dollyIn. rewrite Hp.
    cbn [object set_object Three.fov Three.set_fov].
    unfold Rmax, Rmin.
    destruct (Rle_dec (maxFov zc) _); destruct (Rle_dec (minFov zc) _); lra.
  - intros -> Hpos. cbn [negb].
    destruct (Rlt_dec deltaY 0); [lra|]. destruct (Rgt_dec deltaY 0); [|lra].
    split; [|reflexivity].
    unfold dollyOut. rewrite Hp.
    cbn [object set_object Three.fov Three.set_fov].
    unfold Rmax, Rmin.
    destruct (Rle_dec (maxFov zc) _); destruct (Rle_dec (minFov zc) _); lra.
Qed.

Lemma wheel_and_keys_zoom_direction_witness :
  let zc := new_ (Three.PerspectiveCamera 75 (16 / 9)) false in
  Three.isPerspectiveCamera (object zc) = true
  /\ 0 <= zoomSpeed zc
  /\ 0 <= minFov zc
  /\ minFov zc <= Three.fov (object zc) <= maxFov zc
  /\ enableZoom zc = true
  /\ -120 < 0
  /\ minFov zc <= Three.fov (object (onMouseWheel (-120) zc))
               <= Three.fov (object zc).
Proof.
  cbv zeta.
  set (zc := new_ (Three.PerspectiveCamera 75 (16 / 9)) false).
  assert (0 <= zoomSpeed zc) as Hs by (simpl; lra).
  assert (0 <= minFov zc) as Hm by (simpl; lra).
  assert (minFov zc <= Three.fov (object zc) <= maxFov zc) as Hin.
  { simpl. unfold Constants.FOV_SPHERE. lra. }
  assert (-120 < 0) as Hd by lra.
  split; [reflexivity|]. split; [exact Hs|]. split; [exact Hm|].
  split; [exact Hin|]. split; [reflexivity|]. split; [exact Hd|].
  destruct (wheel_and_keys_zoom_direction (-120) zc eq_refl Hs Hm Hin)
    as (_ & _ & H & _).
  exact (proj1 (H eq_refl Hd)).
Defined.

End ZoomStepFacts.

(** ** Geometry and the render loop *)

Module RenderingFacts.
Import Js Rendering.

Lemma frames_quiet (ids : list Z) (r : t) :
  truthy (triggerFirstRenderEvent r) = false ->
  ThreeSixty.triggered (scene (frames ids r)) = ThreeSixty.triggered (scene r)
  /\ truthy (triggerFirstRenderEvent (frames ids r)) = false
  /\ sphere (frames ids r) = sphere r.
Proof.
  revert r. induction ids as [|id ids IH]; intros r Hq; [repeat split; exact Hq|].
  cbn [frames].
  assert (render id r = with_renderLoopId (Some id) r) as E.
  { unfold render. cbn [triggerFirstRenderEvent with_renderLoopId].
    rewrite Hq. reflexivity. }
  rewrite E. destruct (IH (with_renderLoopId (Some id) r) Hq) as (H1 & H2 & H3).
  rewrite H1, H2, H3. repeat split.
Qed.

(** X21. [firstrender] is triggered once for each rebuilt world: the
    frames rendered after an [update] or [updateCylinder], however many
    there are, announce it exactly once, on the first of them, and
    frames rendered without a rebuild before them announce nothing. *)
Theorem firstrender_once_per_update (ids : list Z) (r : t) :
  (ids <> [] ->
   ThreeSixty.triggered (scene (frames ids (update r)))
   = ThreeSixty.triggered (scene r) ++ [ThreeSixty.Firstrender]
   /\ ThreeSixty.triggered (scene (frames ids (updateCylinder r)))
      = ThreeSixty.triggered (scene r) ++ [ThreeSixty.Firstrender])
  /\ (truthy (triggerFirstRenderEvent r) = false ->
      ThreeSixty.triggered (scene (frames ids r))
      = ThreeSixty.triggered (scene r)).
Proof.
  split.
  - intros Hne. destruct ids as [|id ids]; [congruence|]. cbn [frames].
    split.
    + destruct (frames_quiet ids (render id (update r))) as (H & _);
        [reflexivity|].
      rewrite H. unfold update. destruct (sphere r); reflexivity.
    + destruct (frames_quiet ids (render id (updateCylinder r))) as (H & _);
        [reflexivity|].
      rewrite H. unfold updateCylinder. destruct (sphere r); reflexivity.
  - intros Hq. apply frames_quiet, Hq.
Qed.

Lemma firstrender_once_per_update_witness :
  let r := new_ 0%nat (ThreeSixty.mkOptions None None false) None in
  [5; 6; 7]%Z <> []
  /\ truthy (triggerFirstRenderEvent r) = false
  /\ List.length (ThreeSixty.triggered (scene (frames [5; 6; 7]%Z (update r))))
     = S (List.length (ThreeSixty.triggered (scene r)))
  /\ ThreeSixty.triggered (scene (frames [5; 6; 7]%Z r))
     = ThreeSixty.triggered (scene r).
Proof.
  cbv zeta.
  set (r := new_ 0%nat (ThreeSixty.mkOptions None None false) None).
  assert ([5; 6; 7]%Z <> []) as Hne by discriminate.
  assert (truthy (triggerFirstRenderEvent r) = false) as Hq by reflexivity.
  split; [exact Hne|]. split; [exact Hq|].
  destruct (firstrender_once_per_update [5; 6; 7]%Z r) as [H1 H2].
  destruct (H1 Hne) as [E _].
  split; [|exact (H2 Hq)].
  rewrite E, length_app. simpl. lia.
Defined.

(** X22. Rendering is never doubled: a second [startRendering] changes
    nothing, whether or not the loop was running before the first, and
    after [stopRendering] a [startRendering] renders a frame and
    schedules the next. *)
Theorem startRendering_idempotent (id1 id2 : Z) (r : t) :
  startRendering id2 (startRendering id1 r) = startRendering id1 r
  /\ startRendering id1 (stopRendering r) = render id1 (stopRendering r)
  /\ renderLoopId (startRendering id1 (stopRendering r)) = Some id1.
Proof.
  split; [|split].
  - unfold startRendering at 2 3.
    destruct (renderLoopId r) as [i|] eqn:Ei.
    + unfold startRendering. rewrite Ei. reflexivity.
    + unfold startRendering, render.
      cbn [triggerFirstRenderEvent with_renderLoopId].
      destruct (truthy (triggerFirstRenderEvent r)); reflexivity.
  - reflexivity.
  - unfold startRendering, stopRendering, render. simpl.
    destruct (truthy (triggerFirstRenderEvent r)); reflexivity.
Qed.

(** X23. The geometry follows the settings only at a rebuild: a changed
    segment number leaves the world that exists as it is and shapes the
    next [update]; [updateSource] and [disposeSphere] fail exactly when
    no world has been built, so before the first [update], and succeed
    after one. *)
Theorem geometry_follows_update (n : R) (r : t) :
  sphere (setSegmentNumber n r) = sphere r
  /\ sphere (update (setSegmentNumber n r)) = Some (SphereGeometry (radius r) n n)
  /\ sphere (updateCylinder (setSegmentNumber n r))
     = Some (CylinderGeometry (radius r) (radius r) (radius r) n n true)
  /\ (updateSource r = None <-> sphere r = None)
  /\ (disposeSphere r = None <-> sphere r = None)
  /\ updateSource (update r) = Some (update r)
  /\ (forall dom options segments,
        updateSource (new_ dom options segments) = None).
Proof.
  split; [reflexivity|].
  split; [unfold update; cbn; destruct (sphere r); reflexivity|].
  split; [unfold updateCylinder; cbn; destruct (sphere r); reflexivity|].
  split; [unfold updateSource; destruct (sphere r); split; congruence|].
  split; [unfold disposeSphere; destruct (sphere r); split; congruence|].
  split; [unfold updateSource, update; cbn; destruct (sphere r); reflexivity|].
  reflexivity.
Qed.

Lemma geometry_follows_update_witness :
  let r := setSegmentNumber 64 (new_ 0%nat (ThreeSixty.mkOptions None None false) None) in
  (updateSource r = None <-> sphere r = None)
  /\ updateSource r = None
  /\ sphere (update r) = Some (SphereGeometry 10 64 64).
Proof.
  cbv zeta.
  destruct (geometry_follows_update 64
              (new_ 0%nat (ThreeSixty.mkOptions None None false) None))
    as (_ & Hs & _).
  destruct (geometry_follows_update 1
              (setSegmentNumber 64
                 (new_ 0%nat (ThreeSixty.mkOptions None None false) None)))
    as (_ & _ & _ & Hu & _).
  split; [exact Hu|]. split; [apply Hu; reflexivity|].
  reflexivity.
Defined.

End RenderingFacts.

(** ** The pinch gesture *)

Module PinchFacts.
Import Pinch.

Lemma Rpower_vs_one (r e : R) :
  0 < r -> 0 < e ->
  (r < 1 -> Rpower r e < 1) /\ (r = 1 -> Rpower r e = 1) /\ (1 < r -> 1 < Rpower r e).
Proof.
  intros Hr He. unfold Rpower.
  split; [|split].
  - intros H. rewrite <- exp_0. apply exp_increasing.
    assert (ln r < 0) by (rewrite <- ln_1; apply ln_increasing; lra). nra.
  - intros ->. rewrite ln_1, Rmult_0_r. apply exp_0.
  - intros H. rewrite <- exp_0. apply exp_increasing.
    assert (0 < ln r) by (rewrite <- ln_1; apply ln_increasing; lra). nra.
Qed.

Lemma distance_nonneg (t0 t1 : R * R) : 0 <= distance t0 t1.
Proof. unfold distance. apply sqrt_pos. Qed.

Lemma start_distance (t0 t1 : R * R) (st : t) :
  ZoomControls.enableZoom (zoom st) = true ->
  y (dollyStart (onTouchStart [t0; t1] st)) = distance t0 t1
  /\ zoom (onTouchStart [t0; t1] st) = zoom st.
Proof. intros He. unfold onTouchStart. rewrite He. split; reflexivity. Qed.

(** X25. A pinch zooms by comparing the distance between the two
    fingers with their distance when the gesture started, which no move
    replaces: with a positive zoom speed, any move at a smaller distance
    is one default dolly-out, any at a larger one a default dolly-in,
    and one at the same distance leaves the camera alone.  Moves of one
    finger or of three change nothing. *)
Theorem pinch_compares_with_start_distance (t0 t1 : R * R) (st : t) :
  ZoomControls.enableZoom (zoom st) = true ->
  0 < ZoomControls.zoomSpeed (zoom st) ->
  0 < y (dollyStart st) ->
  (exists st',
     onTouchMove [t0; t1] st = Some st'
     /\ dollyStart st' = dollyStart st
     /\ zoom st'
        = (if Rlt_dec (distance t0 t1) (y (dollyStart st))
           then ZoomControls.dollyOut None (zoom st)
           else if Rgt_dec (distance t0 t1) (y (dollyStart st))
                then ZoomControls.dollyIn None (zoom st)
                else zoom st))
  /\ onTouchMove [t0] st = Some st
  /\ (forall t2, onTouchMove [t0; t1; t2] st = Some st).
Proof.
  intros He Hs Hd.
  split; [|unfold onTouchMove; rewrite He; split; [|intros t2]; reflexivity].
  unfold onTouchMove. rewrite He. cbn [negb]. unfold handleTouchMoveDolly.
  destruct (Req_dec_T (y (dollyStart st)) 0) as [E|_]; [lra|].
  cbn [y]. set (d1 := distance t0 t1). set (d0 := y (dollyStart st)) in *.
  pose proof (distance_nonneg t0 t1) as Hd1. fold d1 in Hd1.
  unfold Math_pow.
  destruct (Rlt_dec 0 (d1 / d0)) as [Hpos|Hnp].
  - destruct (Rpower_vs_one (d1 / d0) (ZoomControls.zoomSpeed (zoom st)) Hpos Hs)
      as (Hlt & Heq & Hgt).
    assert (d1 / d0 * d0 = d1) as Eq by (field; lra).
    destruct (Rlt_dec d1 d0) as [H1|H1].
    + assert (d1 / d0 < 1) as Hr by (apply Rmult_lt_reg_r with d0; lra).
      specialize (Hlt Hr).
      destruct (Rlt_dec (Rpower (d1 / d0) _) 1); [|lra].
      eexists. split; [reflexivity|]. split; reflexivity.
    + destruct (Rgt_dec d1 d0) as [H2|H2].
      * assert (1 < d1 / d0) as Hr by (apply Rmult_lt_reg_r with d0; lra).
        specialize (Hgt Hr).
        destruct (Rlt_dec (Rpower (d1 / d0) _) 1); [lra|].
        destruct (Rgt_dec (Rpower (d1 / d0) _) 1); [|lra].
        eexists. split; [reflexivity|]. split; reflexivity.
      * assert (d1 / d0 = 1) as Hr by (apply Rmult_eq_reg_r with d0; lra).
        specialize (Heq Hr). rewrite Heq.
        destruct (Rlt_dec 1 1); [lra|]. destruct (Rgt_dec 1 1); [lra|].
        eexists. split; [reflexivity|]. split; reflexivity.
  - assert (d1 = 0) as E1.
    { destruct (Req_dec d1 0) as [E|Hne]; [exact E|]. exfalso. apply Hnp.
      apply Rdiv_lt_0_compat; lra. }
    assert (d1 / d0 = 0) as E0 by (rewrite E1; unfold Rdiv; ring).
    destruct (Req_dec_T (d1 / d0) 0) as [_|Hne]; [|contradiction].
    destruct (Rlt_dec 0 (ZoomControls.zoomSpeed (zoom st))); [|lra].
    destruct (Rlt_dec 0 1); [|lra].
    destruct (Rlt_dec d1 d0); [|lra].
    eexists. split; [reflexivity|]. split; reflexivity.
Qed.

Lemma pinch_compares_with_start_distance_witness :
  let st := onTouchStart [(0, 0); (30, 40)]
              (new_ (Three.PerspectiveCamera 53 (16 / 9)) true) in
  ZoomControls.enableZoom (zoom st) = true
  /\ 0 < ZoomControls.zoomSpeed (zoom st)
  /\ 0 < y (dollyStart st)
  /\ exists st', onTouchMove [(0, 0); (3, 4)] st = Some st'
                 /\ dollyStart st' = dollyStart st.
Proof.
  cbv zeta.
  set (st := onTouchStart [(0, 0); (30, 40)]
               (new_ (Three.PerspectiveCamera 53 (16 / 9)) true)).
  assert (0 < ZoomControls.zoomSpeed (zoom st)) as Hs by (simpl; lra).
  assert (0 < y (dollyStart st)) as Hd.
  { simpl. unfold distance. simpl. apply sqrt_lt_R0. lra. }
  split; [reflexivity|]. split; [exact Hs|]. split; [exact Hd|].
  destruct (pinch_compares_with_start_distance (0, 0) (3, 4) st eq_refl Hs Hd)
    as ((st' & E & Hstart & _) & _).
  exists st'. split; [exact E|exact Hstart].
Defined.

End PinchFacts.
